(** * Citizen Hub API

    A shallow embedding of the FastAPI service in [main.py] and of the
    pydantic models in [schemas.py], followed by the properties of the
    service's specification.

    Conventions of the embedding:
    - a Python [str] is a [string], the bytes of its UTF-8 form; the
      methods [lower] and [strip], which follow the Unicode database of
      the interpreter, are the fields of the class [Unicode], known by
      what they do to ASCII text;
    - a [datetime] is a [Z], the number of microseconds since the epoch
      (UTC), the resolution of Python's [datetime];
    - a Python [float] is a [spec_float] (IEEE 754 binary64);
    - free-form dictionaries (request bodies, [metadata], the guides, the
      dumps of a model) are [gmap string json];
    - an [EmailStr] is a [string] that holds an address pydantic has
      already validated and normalised;
    - a handler is a computation in the monad [M], which threads the
      module-level [db] and may raise an exception;
    - the clock ([datetime.now]) and the entropy read by [uuid4] are
      arguments of the handlers that use them. *)

From Stdlib Require Import ZArith NArith Ascii Lia Floats.SpecFloat.
From stdpp Require Import gmap strings list fin_maps.

Set Warnings "-register-all".

(** ** Python's [str] methods used by the service *)

Module Str.

(** A string of ASCII characters only. *)
Definition is_ascii_char (c : ascii) : bool := (N_of_ascii c <? 128)%N.

Fixpoint is_ascii (s : string) : bool :=
  match s with
  | EmptyString => true
  | String c s' => is_ascii_char c && is_ascii s'
  end.

(** [c.lower()] for an ASCII character. *)
Definition ascii_lower_char (c : ascii) : ascii :=
  let n := N_of_ascii c in
  if ((65 <=? n) && (n <=? 90))%N then ascii_of_N (n + 32) else c.

(** [s.lower()] for an ASCII string: the letters A-Z become a-z. *)
Fixpoint ascii_lower (s : string) : string :=
  match s with
  | EmptyString => EmptyString
  | String c s' => String (ascii_lower_char c) (ascii_lower s')
  end.

(** [c.isspace()] for an ASCII character: tab, line feed, vertical tab,
    form feed, carriage return, the four separators 0x1c-0x1f, and the
    space. *)
Definition ascii_isspace (c : ascii) : bool :=
  let n := N_of_ascii c in
  (((9 <=? n) && (n <=? 13)) || ((28 <=? n) && (n <=? 32)))%N.

Fixpoint ascii_lstrip (s : string) : string :=
  match s with
  | EmptyString => EmptyString
  | String c s' => if ascii_isspace c then ascii_lstrip s' else s
  end.

Fixpoint ascii_rstrip (s : string) : string :=
  match s with
  | EmptyString => EmptyString
  | String c s' =>
      match ascii_rstrip s' with
      | EmptyString =>
          if ascii_isspace c then EmptyString else String c EmptyString
      | r => String c r
      end
  end.

(** [s.strip()] for an ASCII string. *)
Definition ascii_strip (s : string) : string := ascii_rstrip (ascii_lstrip s).

(** [s.startswith(p)] *)
Definition startswith (s p : string) : bool := String.prefix p s.

(** [needle in hay] *)
Fixpoint contains (hay needle : string) : bool :=
  String.prefix needle hay
  || match hay with
     | EmptyString => false
     | String _ hay' => contains hay' needle
     end.

(** [sep.join(l)] *)
Definition join (sep : string) (l : list string) : string :=
  String.concat sep l.

(** [bool(s)]: a string is truthy when it is not empty. *)
Definition truthy (s : string) : bool :=
  match s with EmptyString => false | _ => true end.

Definition hexdigit (d : N) : ascii :=
  if (d <? 10)%N then ascii_of_N (48 + d) else ascii_of_N (87 + d).

(** The [w] low hexadecimal digits of [n], most significant first:
    ['%0wx' % n] for [n < 16 ^ w]. *)
Fixpoint hex_digits (w : nat) (n : N) : string :=
  match w with
  | O => EmptyString
  | S w' => hex_digits w' (n / 16) +:+ String (hexdigit (n mod 16)) EmptyString
  end.

(** The value of a hexadecimal digit, and [int(s, 16)] by Horner's
    rule; they are used to read back what [hex_digits] printed. *)
Definition hexval (c : ascii) : N :=
  let n := N_of_ascii c in
  if (n <? 58)%N then n - 48 else n - 87.

Fixpoint unhex (acc : N) (s : string) : N :=
  match s with
  | EmptyString => acc
  | String c s' => unhex (16 * acc + hexval c) s'
  end.

End Str.

(** [str.lower] and [str.strip] follow the Unicode database of the
    interpreter: a letter has the lowercase form the database gives it (the
    Kelvin sign becomes "k"), and the white space that is stripped is the
    database's (the no-break space is white space).  The database is not
    part of the service; what the service relies on is what the two methods
    do to ASCII text, and this is all that is fixed here. *)
Class Unicode : Type := {
  lower : string -> string;
  strip : string -> string;
  lower_ascii : forall s, Str.is_ascii s = true -> lower s = Str.ascii_lower s;
  strip_ascii : forall s, Str.is_ascii s = true -> strip s = Str.ascii_strip s
}.

(** The database in which no character outside ASCII is a letter or white
    space; concrete inputs are run with it. *)
Definition ascii_only : Unicode :=
  {| lower := Str.ascii_lower;
     strip := Str.ascii_strip;
     lower_ascii := fun s _ => eq_refl;
     strip_ascii := fun s _ => eq_refl |}.

(** ** Values of free-form dictionaries *)

Inductive json : Type :=
  | JNull
  | JBool (b : bool)
  | JInt (z : Z)
  | JFloat (f : spec_float)
  | JStr (s : string)
  | JArr (l : list json)
  | JObj (o : gmap string json).

(** ** Exceptions *)

Inductive exn : Type :=
  | HTTPException (status_code : Z) (detail : string)
  | ValidationError (model loc : string)
  | TypeError (msg : string)
  | ServiceUnavailable.

Inductive result (A : Type) : Type :=
  | Ok (a : A)
  | Raise (e : exn).
Arguments Ok {A} a.
Arguments Raise {A} e.

Definition Unauthorized (e : exn) : Prop :=
  exists detail, e = HTTPException 401 detail.

Definition NotFound (e : exn) : Prop :=
  exists detail, e = HTTPException 404 detail.

Definition InvalidInput (e : exn) : Prop :=
  exists model loc, e = ValidationError model loc.

(** ** schemas.py *)

Abbreviation datetime := Z (only parsing).

(** [timedelta(days=n)], in microseconds. *)
Definition timedelta_days (n : Z) : Z := (n * 86400 * 1000000)%Z.

(** [x or default] on an optional string. *)
Definition or_str (x : option string) (default : string) : string :=
  match x with
  | Some s => if Str.truthy s then s else default
  | None => default
  end.

Module User.
(** The documents of the [user] collection.  [login] writes them as a
    plain dictionary, so [preferred_language] is whatever string the
    request carried. *)
Record t : Type := mk {
  name : string;
  email : string;
  preferred_language : string;
  is_active : bool
}.
End User.

Module Session.
Record t : Type := mk {
  user_email : string;
  token : string;
  expires_at : datetime
}.
End Session.

Module Application.
Record t : Type := mk {
  user_email : string;
  doc_type : string;
  status : string;
  reference_id : option string;
  metadata : gmap string json
}.

Definition doc_types : list string :=
  ["aadhaar"; "pan"; "dl"; "voter"; "passport"].

Definition statuses : list string :=
  ["draft"; "submitted"; "in_review"; "approved"; "rejected"].

(** [Application(user_email=..., doc_type=..., metadata=...)]: the
    [Literal] of [doc_type] is checked, [status] and [reference_id] take
    their defaults. *)
Definition new (user_email doc_type : string) (metadata : gmap string json)
  : result t :=
  if bool_decide (doc_type ∈ doc_types)
  then Ok (mk user_email doc_type "draft" None metadata)
  else Raise (ValidationError "Application" "doc_type").
End Application.

Module Payment.
Record t : Type := mk {
  user_email : string;
  purpose : string;
  amount : spec_float;
  currency : string;
  status : string;
  application_ref : option string;
  provider_ref : option string
}.

(** The constraint [ge=0] on [amount]. *)
Definition ge0 (x : spec_float) : bool := SFleb (S754_zero false) x.

(** [Payment(user_email=..., purpose=..., amount=..., application_ref=...)] *)
Definition new (user_email purpose : string) (amount : spec_float)
    (application_ref : option string) : result t :=
  if ge0 amount
  then Ok (mk user_email purpose amount "INR" "initiated" application_ref None)
  else Raise (ValidationError "Payment" "amount").
End Payment.

Module SearchItem.
Record t : Type := mk {
  key : string;
  label : string;
  category : string;
  url : string;
  keywords : list string
}.

(** [item.model_dump()] *)
Definition model_dump (item : t) : gmap string json :=
  <["key" := JStr (key item)]>
    (<["label" := JStr (label item)]>
      (<["category" := JStr (category item)]>
        (<["url" := JStr (url item)]>
          (<["keywords" := JArr (JStr <$> keywords item)]> ∅)))).
End SearchItem.

(** ** The request and response models of main.py *)

Module LoginRequest.
Record t : Type := mk {
  email : string;
  name : option string;
  preferred_language : option string
}.
End LoginRequest.

Module LoginResponse.
Record t : Type := mk {
  token : string;
  email : string;
  name : option string
}.
End LoginResponse.

Module ApplicationCreate.
Record t : Type := mk {
  doc_type : string;
  metadata : gmap string json
}.

(** The model read from a JSON request body: [doc_type] is a required
    string, [metadata] is a dictionary that defaults to the empty one,
    and any other key of the body is ignored. *)
Definition model_validate (body : gmap string json) : result t :=
  match body !! "doc_type" with
  | Some (JStr d) =>
      match body !! "metadata" with
      | None => Ok (mk d ∅)
      | Some (JObj m) => Ok (mk d m)
      | Some _ => Raise (ValidationError "ApplicationCreate" "metadata")
      end
  | _ => Raise (ValidationError "ApplicationCreate" "doc_type")
  end.
End ApplicationCreate.

Module PaymentInit.
Record t : Type := mk {
  purpose : string;
  amount : spec_float;
  application_ref : option string
}.
End PaymentInit.

(** ** [uuid4().hex] *)

Module UUID.

(** The integer of [UUID(bytes=os.urandom(16), version=4)], where [rnd]
    is the sixteen random bytes read as a big-endian number: the variant
    bits are set to [10] and the version nibble to [4]. *)
Definition uuid4 (rnd : N) : N :=
  let int := (rnd mod 2 ^ 128)%N in
  let int := N.ldiff int (N.shiftl 0xc000 48) in
  let int := N.lor int (N.shiftl 0x8000 48) in
  let int := N.ldiff int (N.shiftl 0xf000 64) in
  N.lor int (N.shiftl 4 76).

(** [u.hex], that is ['%032x' % u.int]. *)
Definition hex (u : N) : string := Str.hex_digits 32 u.

End UUID.

(** ** The document store

    A stored document is a model's fields together with the [_id] the
    store gave it.  A collection keeps its documents in insertion order,
    the order in which the store enumerates them. *)

Abbreviation ObjectId := N (only parsing).

(** [str(oid)]: the twelve bytes in hexadecimal. *)
Definition str_oid (oid : ObjectId) : string := Str.hex_digits 24 oid.

Record stored (I A : Type) : Type := Stored { _id : I; doc : A }.
Arguments Stored {I A} _id doc.
Arguments _id {I A} s.
Arguments doc {I A} s.

Record database : Type := Database {
  users : list (stored ObjectId User.t);
  sessions : list (stored ObjectId Session.t);
  applications : list (stored ObjectId Application.t);
  payments : list (stored ObjectId Payment.t)
}.

Definition empty_database : database := Database [] [] [] [].

(** The names of the collections; each holds the documents of one model
    (the lowercased class name, as schemas.py says). *)
Inductive collection_name : Type -> Type :=
  | user : collection_name User.t
  | session : collection_name Session.t
  | application : collection_name Application.t
  | payment : collection_name Payment.t.

Definition collection {A} (name : collection_name A) (d : database)
  : list (stored ObjectId A) :=
  match name with
  | user => users d
  | session => sessions d
  | application => applications d
  | payment => payments d
  end.

Definition set_collection {A} (name : collection_name A)
  : list (stored ObjectId A) -> database -> database :=
  match name with
  | user => fun c d => Database c (sessions d) (applications d) (payments d)
  | session => fun c d => Database (users d) c (applications d) (payments d)
  | application => fun c d => Database (users d) (sessions d) c (payments d)
  | payment => fun c d => Database (users d) (sessions d) (applications d) c
  end.

(** ** The monad of the handlers

    The state is the module-level [db] of database.py, which is [None]
    when no store is configured. *)

Definition M (A : Type) : Type :=
  option database -> result A * option database.

Definition ret {A} (a : A) : M A := fun db => (Ok a, db).

Definition raise {A} (e : exn) : M A := fun db => (Raise e, db).

Definition bind {A B} (m : M A) (k : A -> M B) : M B :=
  fun db =>
    match m db with
    | (Ok a, db') => k a db'
    | (Raise e, db') => (Raise e, db')
    end.

Definition lift {A} (r : result A) : M A := fun db => (r, db).

Definition get_db : M (option database) := fun db => (Ok db, db).

Definition put_db (d : database) : M unit := fun _ => (Ok tt, Some d).

Declare Scope handler_scope.
Delimit Scope handler_scope with handler.
Notation "x <- m ;; k" := (bind m (fun x => k))
  (at level 100, m at next level, right associativity) : handler_scope.
Notation "m ;;; k" := (bind m (fun _ => k))
  (at level 100, right associativity) : handler_scope.
Open Scope handler_scope.

(** *** pymongo *)

(** [db[name]] *)
Definition _collection {A} (name : collection_name A)
  : M (list (stored ObjectId A)) :=
  db <- get_db ;;
  match db with
  | None => raise (TypeError "'NoneType' object is not subscriptable")
  | Some d => ret (collection name d)
  end.

(** The identifier the store gives to the next document of a collection. *)
Definition next_id {A} (c : list (stored ObjectId A)) : ObjectId :=
  N.succ (foldr N.max 0%N (_id <$> c)).

(** [db[name].insert_one(data).inserted_id] *)
Definition insert_one {A} (name : collection_name A) (data : A) : M ObjectId :=
  db <- get_db ;;
  match db with
  | None => raise (TypeError "'NoneType' object is not subscriptable")
  | Some d =>
      let c := collection name d in
      let oid := next_id c in
      put_db (set_collection name (c ++ [Stored oid data]) d) ;;;
      ret oid
  end.

(** [db[name].find_one(filter)]: the first document that matches. *)
Definition find_one {A} (name : collection_name A) (filter : A -> bool)
  : M (option (stored ObjectId A)) :=
  c <- _collection name ;;
  ret (List.find (fun s => filter (doc s)) c).

(** [db[name].update_one(filter, {"$setOnInsert": data}, upsert=True)]:
    a matching document is left as it is, since the update carries no other
    operator; when there is none, [data] is inserted. *)
Definition update_one_setOnInsert {A} (name : collection_name A)
    (filter : A -> bool) (data : A) : M unit :=
  c <- _collection name ;;
  if existsb (fun s => filter (doc s)) c then ret tt
  else (insert_one name data ;;; ret tt).

(** *** database.py *)

(** Modelled from the spec: [create_document] of database.py, which is not
    among the sources.  "[create] serializes a domain record to a flat
    key-value mapping and inserts it, returning a string identifier unique
    within the collection"; "if the store is unreachable/unconfigured, every
    dependent operation fails with a ServiceUnavailable condition". *)
Definition create_document {A} (name : collection_name A) (data : A) : M string :=
  db <- get_db ;;
  match db with
  | None => raise ServiceUnavailable
  | Some _ => oid <- insert_one name data ;; ret (str_oid oid)
  end.

(** Modelled from the spec: [get_documents] of database.py, which is not
    among the sources.  "[query] returns up to [limit] matching records in
    store-defined order". *)
Definition get_documents {A} (name : collection_name A) (filter_dict : A -> bool)
    (limit : nat) : M (list (stored ObjectId A)) :=
  db <- get_db ;;
  match db with
  | None => raise ServiceUnavailable
  | Some d =>
      ret (take limit (List.filter (fun s => filter_dict (doc s)) (collection name d)))
  end.

(** ** main.py *)

(** *** Authentication *)

Definition login (req : LoginRequest.t) (now : datetime) (rnd : N)
  : M LoginResponse.t :=
  db <- get_db ;;
  match db with
  | None => raise (HTTPException 500 "Database not configured")
  | Some _ =>
      update_one_setOnInsert user
        (fun u => String.eqb (User.email u) (LoginRequest.email req))
        {| User.name := or_str (LoginRequest.name req) "Citizen";
           User.email := LoginRequest.email req;
           User.preferred_language :=
             or_str (LoginRequest.preferred_language req) "en";
           User.is_active := true |} ;;;
      let token := UUID.hex (UUID.uuid4 rnd) in
      let expires := (now + timedelta_days 7)%Z in
      create_document session
        {| Session.user_email := LoginRequest.email req;
           Session.token := token;
           Session.expires_at := expires |} ;;;
      ret {| LoginResponse.token := token;
             LoginResponse.email := LoginRequest.email req;
             LoginResponse.name := LoginRequest.name req |}
  end.

(** The filter [{"token": token, "expires_at": {"$gt": now}}]. *)
Definition live_session (token : string) (now : datetime) (s : Session.t) : bool :=
  String.eqb (Session.token s) token && (now <? Session.expires_at s)%Z.

Definition awaitable_get_user (token : string) (now : datetime) : M string :=
  if negb (Str.truthy token) then raise (HTTPException 401 "Missing token")
  else
    sess <- find_one session (live_session token now) ;;
    match sess with
    | None => raise (HTTPException 401 "Invalid or expired token")
    | Some s => ret (Session.user_email (doc s))
    end.

(** *** Applications *)

Definition create_application (payload : ApplicationCreate.t) (token : string)
    (now : datetime) : M (gmap string json) :=
  user_email <- awaitable_get_user token now ;;
  app_doc <- lift (Application.new user_email
                     (ApplicationCreate.doc_type payload)
                     (ApplicationCreate.metadata payload)) ;;
  ref <- create_document application app_doc ;;
  ret (<["reference" := JStr ref]>
         (<["status" := JStr (Application.status app_doc)]> ∅)).

(** The route [POST /applications]: the JSON body is read into the
    [ApplicationCreate] model and handed to the handler. *)
Definition post_applications (body : gmap string json) (token : string)
    (now : datetime) : M (gmap string json) :=
  payload <- lift (ApplicationCreate.model_validate body) ;;
  create_application payload token now.

(** The loop [it["_id"] = str(it["_id"])]. *)
Definition render_id {A} (it : stored ObjectId A) : stored string A :=
  Stored (str_oid (_id it)) (doc it).

Definition list_applications (token : string) (now : datetime)
  : M (list (stored string Application.t)) :=
  user_email <- awaitable_get_user token now ;;
  items <- get_documents application
             (fun a => String.eqb (Application.user_email a) user_email) 50 ;;
  ret (render_id <$> items).

(** *** Payments *)

Definition init_payment (payload : PaymentInit.t) (token : string)
    (now : datetime) : M (gmap string json) :=
  user_email <- awaitable_get_user token now ;;
  pay <- lift (Payment.new user_email (PaymentInit.purpose payload)
                 (PaymentInit.amount payload)
                 (PaymentInit.application_ref payload)) ;;
  pid <- create_document payment pay ;;
  ret (<["payment_id" := JStr pid]> (<["status" := JStr "initiated"]> ∅)).

(** *** Predictive search *)

Definition SEARCH_ITEMS : list SearchItem.t := [
  SearchItem.mk "aadhaar" "Apply for Aadhaar" "Identity" "/guide/aadhaar"
    ["uidai"; "uid"; "identity"; "proof"];
  SearchItem.mk "pan" "Apply for PAN" "Tax" "/guide/pan"
    ["income tax"; "form 49a"; "epan"];
  SearchItem.mk "dl" "Apply for Driving Licence" "Transport" "/guide/driving-licence"
    ["sarathi"; "rto"; "learner"; "dl"];
  SearchItem.mk "voter" "Register Voter ID" "Elections" "/guide/voter"
    ["epic"; "eci"; "form 6"];
  SearchItem.mk "passport" "Apply for Passport" "Travel" "/guide/passport"
    ["psk"; "tatkaal"; "seva"]
].

(** [" ".join([item.label, item.category] + item.keywords).lower()] *)
Definition hay `{Unicode} (item : SearchItem.t) : string :=
  lower (Str.join " " ([SearchItem.label item; SearchItem.category item]
                       ++ SearchItem.keywords item)).

(** The condition of the loop of [predictive_search]. *)
Definition item_matches `{Unicode} (ql : string) (item : SearchItem.t) : bool :=
  Str.contains (hay item) ql
  || existsb (fun k => Str.startswith k ql)
       ([SearchItem.key item] ++ SearchItem.keywords item).

(** The value of [results] when the loop of [predictive_search] ends. *)
Definition search_results `{Unicode} (ql : string)
  : list (gmap string json) :=
  foldl (fun results item =>
           if item_matches ql item
           then results ++ [SearchItem.model_dump item]
           else results)
        [] SEARCH_ITEMS.

Definition predictive_search `{Unicode} (q : string) : gmap string json :=
  let ql := strip (lower q) in
  <["results" := JArr (JObj <$> take 8 (search_results ql))]> ∅.

(** *** Guides *)

Definition guide (title summary cost time official : string)
    (steps : list string) : gmap string json :=
  <["title" := JStr title]>
    (<["summary" := JStr summary]>
      (<["cost" := JStr cost]>
        (<["time" := JStr time]>
          (<["official" := JStr official]>
            (<["steps" := JArr (JStr <$> steps)]> ∅))))).

Definition guide_aadhaar : gmap string json :=
  guide "Get your Aadhaar Number"
    "A step-by-step guide to enrol for Aadhaar."
    "Free for first-time enrolment"
    "Usually a few weeks; up to 180 days"
    "https://myaadhaar.uidai.gov.in/"
    ["Find a nearby Aadhaar Enrolment Centre.";
     "Fill the enrolment form.";
     "Show original ID and address proofs. They will be scanned and returned.";
     "Give photo, fingerprints, and iris scans.";
     "Check your details on the screen.";
     "Keep the acknowledgement slip with EID to track.";
     "Download e-Aadhaar when ready."].

Definition guide_pan : gmap string json :=
  guide "Get your PAN"
    "Apply online for a Permanent Account Number (PAN)."
    "Instant e-PAN: Free; Regular: ~₹101–₹107"
    "Instant in minutes (e-PAN) or ~15–20 days"
    "https://www.incometax.gov.in/"
    ["Choose Instant e-PAN or Regular PAN.";
     "Fill Form 49A (online).";
     "Pay the fee if required.";
     "Use Aadhaar e-KYC if possible (no paperwork).";
     "If not e-KYC, print, sign, and post the form.";
     "Get e-PAN by email; physical card comes by post."].

Definition guide_dl : gmap string json :=
  guide "Get a Driving Licence"
    "Apply for a Learner's Licence, then take a driving test."
    "Varies by State; ~₹200–₹500 for LL; ₹700–₹1,500 for DL"
    "LL: same day after test; DL: after road test"
    "https://sarathi.parivahan.gov.in/"
    ["Apply online for Learner's Licence.";
     "Upload documents and pay the fee.";
     "Book and pass the online test.";
     "Wait 30 days or more.";
     "Apply for Driving Licence and book road test.";
     "Take the test at the RTO. Bring originals."].

Definition guide_voter : gmap string json :=
  guide "Register for Voter ID"
    "Add your name to the electoral roll (Form 6)."
    "Free"
    "~30 days to 2 months"
    "https://voters.eci.gov.in/"
    ["Log in to the Voter Services Portal.";
     "Choose Form 6 and fill your details.";
     "Upload photo, ID, address and age proof.";
     "Submit and keep the reference number.";
     "BLO may visit your home for verification.";
     "Get your EPIC after approval."].

Definition guide_passport : gmap string json :=
  guide "Get a Passport"
    "Create an account and book an appointment at a PSK."
    "Normal: ₹1,500 (36 pages); Tatkaal: ₹3,500"
    "Normal: 15–30 days; Tatkaal: 7–14 days"
    "https://passportindia.gov.in/"
    ["Create account at Passport Seva.";
     "Fill application and pay the fee.";
     "Book appointment at PSK/POPSK.";
     "Visit with originals. Biometrics will be taken.";
     "Police Verification will happen.";
     "Passport will be printed and sent by post."].

(** [GUIDES], after the five assignments of the module. *)
Definition GUIDES : gmap string (gmap string json) :=
  <["passport" := guide_passport]>
    (<["voter" := guide_voter]>
      (<["dl" := guide_dl]>
        (<["pan" := guide_pan]>
          (<["aadhaar" := guide_aadhaar]> ∅)))).

Definition get_guide (key : string) : result (gmap string json) :=
  match GUIDES !! key with
  | None => Raise (HTTPException 404 "Guide not found")
  | Some g => Ok g
  end.

(** ** Notions used to state the properties *)

(** [x] occurs in [s]. *)
Definition is_substring (x s : string) : Prop :=
  exists pre post, s = pre +:+ x +:+ post.

(** [s] starts with [x]. *)
Definition is_prefix (x s : string) : Prop :=
  exists post, s = x +:+ post.

(** The text the specification of the search describes: "the
    concatenation of its label, category, and keywords (lowercased)". *)
Definition concatenation `{Unicode} (item : SearchItem.t) : string :=
  lower (SearchItem.label item +:+ SearchItem.category item
         +:+ String.concat "" (SearchItem.keywords item)).

(** The query after [q.lower().strip()]. *)
Definition normalized `{Unicode} (q : string) : string := strip (lower q).

(** An item matches a normalized query, as [predictive_search] decides it. *)
Definition matches `{Unicode} (ql : string) (item : SearchItem.t) : Prop :=
  is_substring ql (hay item)
  \/ is_prefix ql (SearchItem.key item)
  \/ exists k, k ∈ SearchItem.keywords item /\ is_prefix ql k.

(** An item matches a normalized query, as the specification words it. *)
Definition matches_as_specified `{Unicode} (ql : string)
    (item : SearchItem.t) : Prop :=
  is_substring ql (concatenation item)
  \/ is_prefix ql (SearchItem.key item)
  \/ exists k, k ∈ SearchItem.keywords item /\ is_prefix ql k.

(** One call of [login]: the request, the clock and the entropy it reads. *)
Abbreviation login_call := (LoginRequest.t * Z * N)%type (only parsing).

(** The session [login] stores for a call. *)
Definition issued (c : login_call) : Session.t :=
  {| Session.user_email := LoginRequest.email c.1.1;
     Session.token := UUID.hex (UUID.uuid4 c.2);
     Session.expires_at := (c.1.2 + timedelta_days 7)%Z |}.

(** The response [login] gives to a call. *)
Definition response (c : login_call) : LoginResponse.t :=
  {| LoginResponse.token := UUID.hex (UUID.uuid4 c.2);
     LoginResponse.email := LoginRequest.email c.1.1;
     LoginResponse.name := LoginRequest.name c.1.1 |}.

(** The user [login] stores for a request when the address is new. *)
Definition new_user (req : LoginRequest.t) : User.t :=
  {| User.name := or_str (LoginRequest.name req) "Citizen";
     User.email := LoginRequest.email req;
     User.preferred_language := or_str (LoginRequest.preferred_language req) "en";
     User.is_active := true |}.

Definition has_user (email : string) (d : database) : Prop :=
  exists u, u ∈ users d /\ User.email (doc u) = email.

(** A sequence of calls of [login], one after the other. *)
Fixpoint logins (calls : list login_call) : M (list LoginResponse.t) :=
  match calls with
  | [] => ret []
  | c :: calls' =>
      r <- login c.1.1 c.1.2 c.2 ;;
      rs <- logins calls' ;;
      ret (r :: rs)
  end.

(** The token authenticates as [email] at time [now]. *)
Definition authenticates (d : database) (token : string) (now : Z)
    (email : string) : Prop :=
  awaitable_get_user token now (Some d) = (Ok email, Some d).

(** The metadata [ApplicationCreate] reads from a request body. *)
Definition body_metadata (body : gmap string json) : gmap string json :=
  match body !! "metadata" with
  | Some (JObj m) => m
  | _ => ∅
  end.

Definition guide_keys : list string :=
  ["aadhaar"; "pan"; "dl"; "voter"; "passport"].

(** ** Concrete inputs, on which the properties are exercised *)

Definition asha_first : LoginRequest.t :=
  LoginRequest.mk "asha@example.in" None None.

Definition asha_second : LoginRequest.t :=
  LoginRequest.mk "asha@example.in" (Some "Asha") (Some "hi").

Definition two_calls : list login_call :=
  [(asha_first, 1000%Z, 1%N); (asha_second, 2000%Z, 2%N)].

(** The token of the UUID drawn from the entropy [1]. *)
Definition token_1 : string := "00000000000040008000000000000001".

(** The store after the first of [two_calls]. *)
Definition one_login : database :=
  Database
    [Stored 1%N (User.mk "Citizen" "asha@example.in" "en" true)]
    [Stored 1%N (Session.mk "asha@example.in" token_1 604800001000%Z)]
    [] [].

(** [one_login] with two applications, of two users, with the same
    metadata. *)
Definition two_applications : database :=
  Database (users one_login) (sessions one_login)
    [Stored 1%N (Application.mk "ravi@example.in" "pan" "draft" None ∅);
     Stored 2%N (Application.mk "asha@example.in" "pan" "draft" None ∅)]
    [].

(** The Kelvin sign U+212A and the no-break space U+00A0, in UTF-8. *)
Definition kelvin_sign : string :=
  String "226" (String "132" (String "170" EmptyString)).

Definition no_break_space : string :=
  String "194" (String "160" EmptyString).

(** -1.0 and 250.0 *)
Definition minus_one : spec_float := S754_finite true 1 0.
Definition two_hundred_fifty : spec_float := S754_finite false 250 0.

(** A request body that tries to set the status. *)
Definition pan_body : gmap string json :=
  <["doc_type" := JStr "pan"]>
    (<["status" := JStr "approved"]>
      (<["metadata" := JObj (<["father_name" := JStr "Ravi"]> ∅)]> ∅)).

(** ** The rest of main.py and schemas.py *)

(** The asynchronous twin of [awaitable_get_user]; its body, run to the
    end. *)
Definition get_user_from_token (token : string) (now : datetime) : M string :=
  db <- get_db ;;
  match db with
  | None => raise (HTTPException 500 "Database not configured")
  | Some _ =>
      sess <- find_one session (live_session token now) ;;
      match sess with
      | None => raise (HTTPException 401 "Invalid or expired token")
      | Some s => ret (Session.user_email (doc s))
      end
  end.

(** The [Literal] of [User.preferred_language]. *)
Definition User_languages : list string := ["en"; "hi"].

(** The stored fields of a user read back into the [User] model of
    schemas.py. *)
Definition User_model_validate (u : User.t) : result User.t :=
  if bool_decide (User.preferred_language u ∈ User_languages)
  then Ok u
  else Raise (ValidationError "User" "preferred_language").

(** The routes that touch the store, with what each call carries. *)
Inductive call : Type :=
  | PostAuthLogin (req : LoginRequest.t) (now : Z) (rnd : N)
  | PostApplications (body : gmap string json) (token : string) (now : Z)
  | GetApplications (token : string) (now : Z)
  | PostPaymentsInit (payload : PaymentInit.t) (token : string) (now : Z).

(** The [db] a call leaves behind. *)
Definition serve (c : call) (db : option database) : option database :=
  match c with
  | PostAuthLogin req now rnd => (login req now rnd db).2
  | PostApplications body token now => (post_applications body token now db).2
  | GetApplications token now => (list_applications token now db).2
  | PostPaymentsInit payload token now => (init_payment payload token now db).2
  end.

Definition serve_all (calls : list call) (db : option database)
  : option database :=
  foldl (fun db c => serve c db) db calls.

(** The stores the service can build, from the empty one. *)
Definition reachable (d : database) : Prop :=
  exists calls, serve_all calls (Some empty_database) = Some d.

Definition emails_unique (d : database) : Prop :=
  NoDup ((fun u => User.email (doc u)) <$> users d).

Definition owners_known (d : database) : Prop :=
  (forall s, s ∈ sessions d -> has_user (Session.user_email (doc s)) d)
  /\ (forall a, a ∈ applications d ->
        has_user (Application.user_email (doc a)) d)
  /\ (forall p, p ∈ payments d -> has_user (Payment.user_email (doc p)) d).

Definition application_valid (a : Application.t) : Prop :=
  Application.status a = "draft"
  /\ Application.doc_type a ∈ Application.doc_types
  /\ Application.reference_id a = None.

Definition payment_valid (p : Payment.t) : Prop :=
  Payment.ge0 (Payment.amount p) = true
  /\ Payment.currency p = "INR"
  /\ Payment.status p = "initiated"
  /\ Payment.provider_ref p = None.

(** The characters of a token. *)
Definition is_hexdigit (c : ascii) : bool :=
  let n := N_of_ascii c in
  (((48 <=? n) && (n <=? 57)) || ((97 <=? n) && (n <=? 102)))%N.

Fixpoint string_forallb (P : ascii -> bool) (s : string) : bool :=
  match s with
  | EmptyString => true
  | String c s' => P c && string_forallb P s'
  end.

(** The applications a user owns, in the order of the store. *)
Definition owned (email : string) (d : database)
  : list (stored N Application.t) :=
  List.filter (fun s => String.eqb (Application.user_email (doc s)) email)
    (applications d).

(** [one_login] with fifty applications of its user. *)
Definition fifty_applications : database :=
  Database (users one_login) (sessions one_login)
    (imap (fun i a => Stored (N.of_nat (S i)) a)
       (replicate 50 (Application.mk "asha@example.in" "pan" "draft" None ∅)))
    [].

(** A string that does not begin with white space. *)
Definition trimmed_left (s : string) : Prop :=
  match s with
  | EmptyString => True
  | String c _ => Str.ascii_isspace c = false
  end.

(** A login, an application, a payment and a second login. *)
Definition a_day : list call :=
  [PostAuthLogin asha_first 1000 1;
   PostApplications pan_body token_1 5000;
   PostPaymentsInit (PaymentInit.mk "fee" two_hundred_fifty None) token_1 6000;
   PostAuthLogin asha_second 7000 2].

Definition after_a_day : database :=
  default empty_database (serve_all a_day (Some empty_database)).

(** * Properties *)

(** ** Strings *)

Lemma append_cons (c : ascii) (s t : string) :
  String c s +:+ t = String c (s +:+ t).
Proof. reflexivity. Qed.

Lemma append_nil_r (s : string) : s +:+ "" = s.
Proof. induction s as [|c s IH]; [done | rewrite append_cons; by f_equal]. Qed.

Lemma append_assoc (a b c : string) : (a +:+ b) +:+ c = a +:+ b +:+ c.
Proof. induction a as [|x a IH]; [done | rewrite !append_cons; by f_equal]. Qed.

Lemma prefix_spec (x s : string) : String.prefix x s = true <-> is_prefix x s.
Proof.
  revert s. induction x as [|a x IH]; intros s.
  - destruct s; simpl; split; intros _; try done; by eexists.
  - destruct s as [|b s]; simpl.
    + split; [done | intros [post H]; discriminate H].
    + destruct (ascii_dec a b) as [->|Hne].
      * rewrite IH. split; intros [post H]; exists post.
        -- rewrite append_cons. by rewrite H.
        -- rewrite append_cons in H. by injection H.
      * split; [done | intros [post H]; rewrite append_cons in H; injection H as Hab _; done].
Qed.

Lemma contains_nil (x : string) : Str.contains "" x = String.prefix x "".
Proof. simpl. apply orb_false_r. Qed.

Lemma contains_cons (c : ascii) (hay x : string) :
  Str.contains (String c hay) x
  = String.prefix x (String c hay) || Str.contains hay x.
Proof. reflexivity. Qed.

Lemma contains_spec (hay x : string) :
  Str.contains hay x = true <-> is_substring x hay.
Proof.
  induction hay as [|c hay IH].
  - rewrite contains_nil, prefix_spec. split.
    + intros [post H]. by exists "", post.
    + intros [pre [post H]]. destruct pre; [by exists post | discriminate H].
  - rewrite contains_cons, orb_true_iff, prefix_spec, IH. split.
    + intros [[post H] | [pre [post H]]].
      * by exists "", post.
      * exists (String c pre), post. rewrite append_cons. by rewrite H.
    + intros [pre [post H]]. destruct pre as [|c' pre].
      * left. by exists post.
      * right. rewrite append_cons in H. injection H as _ H. by exists pre, post.
Qed.

Lemma contains_empty (hay : string) : Str.contains hay "" = true.
Proof. apply contains_spec. exists "", hay. done. Qed.

(** ** Predictive search *)

Lemma ascii_lower_char_is_ascii (c : ascii) :
  Str.is_ascii_char (Str.ascii_lower_char c) = Str.is_ascii_char c.
Proof. by destruct c as [[] [] [] [] [] [] [] []]. Qed.

Lemma ascii_lower_is_ascii (s : string) :
  Str.is_ascii (Str.ascii_lower s) = Str.is_ascii s.
Proof.
  induction s as [|c s IH]; [done|]. simpl.
  by rewrite ascii_lower_char_is_ascii, IH.
Qed.

(** On an ASCII query the normalization is the ASCII one, whatever the
    Unicode database is. *)
Lemma normalized_ascii `{U : Unicode} (q : string) :
  Str.is_ascii q = true ->
  normalized q = Str.ascii_strip (Str.ascii_lower q).
Proof.
  intros Hq. unfold normalized. rewrite (lower_ascii q Hq).
  apply strip_ascii. by rewrite ascii_lower_is_ascii.
Qed.

(** The texts of the catalog are ASCII. *)
Lemma hay_catalog `{U : Unicode} (item : SearchItem.t) :
  item ∈ SEARCH_ITEMS -> hay item = hay (H := ascii_only) item.
Proof.
  unfold SEARCH_ITEMS. intros H.
  repeat (apply elem_of_cons in H as [-> | H];
          [apply lower_ascii; vm_compute; reflexivity|]).
  by apply elem_of_nil in H.
Qed.

Lemma concatenation_catalog `{U : Unicode} (item : SearchItem.t) :
  item ∈ SEARCH_ITEMS ->
  concatenation item = concatenation (H := ascii_only) item.
Proof.
  unfold SEARCH_ITEMS. intros H.
  repeat (apply elem_of_cons in H as [-> | H];
          [apply lower_ascii; vm_compute; reflexivity|]).
  by apply elem_of_nil in H.
Qed.

Lemma item_matches_catalog `{U : Unicode} (ql : string) (item : SearchItem.t) :
  item ∈ SEARCH_ITEMS ->
  item_matches ql item = item_matches (H := ascii_only) ql item.
Proof. intros Hi. unfold item_matches. by rewrite (hay_catalog item Hi). Qed.

Lemma search_loop `{U : Unicode} (ql : string) (items : list SearchItem.t)
    (acc : list (gmap string json)) :
  foldl (fun results item =>
           if item_matches ql item
           then results ++ [SearchItem.model_dump item]
           else results) acc items
  = acc ++ (SearchItem.model_dump <$> List.filter (item_matches ql) items).
Proof.
  revert acc. induction items as [|item items IH]; intros acc; simpl.
  - by rewrite app_nil_r.
  - rewrite IH. destruct (item_matches ql item); [|done].
    rewrite <- app_assoc. done.
Qed.

Lemma search_results_filter `{U : Unicode} (ql : string) :
  search_results ql
  = SearchItem.model_dump <$> List.filter (item_matches ql) SEARCH_ITEMS.
Proof. unfold search_results. by rewrite search_loop. Qed.

Lemma item_matches_spec `{U : Unicode} (ql : string) (item : SearchItem.t) :
  item_matches ql item = true <-> matches ql item.
Proof.
  unfold item_matches, matches. simpl existsb.
  rewrite !orb_true_iff, contains_spec. unfold Str.startswith.
  rewrite prefix_spec, existsb_exists.
  split; (intros [H | [H | [k [Hk H]]]]; [by left | right; by left | right; right; exists k]).
  - split; [by apply list_elem_of_In | by apply prefix_spec].
  - split; [by apply list_elem_of_In | by apply prefix_spec].
Qed.

Lemma filter_sublist {A} (P : A -> bool) (l : list A) :
  List.filter P l `sublist_of` l.
Proof.
  induction l as [|x l IH]; simpl; [constructor|].
  destruct (P x); by constructor.
Qed.

Lemma filter_elem_of {A} (P : A -> bool) (l : list A) (x : A) :
  x ∈ List.filter P l <-> x ∈ l /\ P x = true.
Proof. rewrite !list_elem_of_In. apply filter_In. Qed.

Lemma filter_all {A} (P : A -> bool) (l : list A) :
  (forall x, x ∈ l -> P x = true) -> List.filter P l = l.
Proof.
  induction l as [|x l IH]; intros H; simpl; [done|].
  rewrite (H x) by constructor. f_equal. apply IH. intros y Hy. apply H. by constructor.
Qed.

Lemma filter_equal {A} (P Q : A -> bool) (l : list A) :
  (forall x, x ∈ l -> P x = Q x) -> List.filter P l = List.filter Q l.
Proof.
  induction l as [|x l IH]; intros H; simpl; [done|].
  rewrite (H x) by constructor. rewrite IH; [done|].
  intros y Hy. apply H. by constructor.
Qed.

Lemma item_matches_empty `{U : Unicode} (item : SearchItem.t) :
  item_matches "" item = true.
Proof. unfold item_matches. by rewrite contains_empty. Qed.

(** On an ASCII query the answer is the one computed with the ASCII
    methods, whatever the Unicode database is. *)
Lemma search_results_ascii `{U : Unicode} (ql : string) :
  search_results ql = search_results (H := ascii_only) ql.
Proof.
  rewrite !search_results_filter. f_equal.
  apply filter_equal. intros item Hi. by apply item_matches_catalog.
Qed.

Lemma predictive_search_ascii `{U : Unicode} (q : string) :
  Str.is_ascii q = true ->
  predictive_search q = predictive_search (H := ascii_only) q.
Proof.
  intros Hq. unfold predictive_search. cbv zeta.
  pose proof (normalized_ascii q Hq) as Hn. unfold normalized in Hn.
  rewrite Hn, (search_results_ascii (U := U)). reflexivity.
Qed.

(** C3 (as amended): the query is lowercased, then trimmed; the answer
    lists, in the order of the catalog and cut after the eighth, exactly the
    items for which the normalized query occurs in the lowercased text made
    of the label, the category and the keywords joined by single spaces, or
    is a prefix of the key or of a keyword; the empty query is its own
    normalized form and returns the whole catalog.  This holds for the
    lowercasing and the trimming of any Unicode database. *)
Theorem predictive_search_spec `{U : Unicode} (q : string) :
  exists l : list SearchItem.t,
    predictive_search q
    = <["results" := JArr (JObj <$> (SearchItem.model_dump <$> take 8 l))]> ∅
    /\ l `sublist_of` SEARCH_ITEMS
    /\ (forall item,
          item ∈ l <-> item ∈ SEARCH_ITEMS /\ matches (normalized q) item)
    /\ take 8 l = l
    /\ (normalized q = "" -> l = SEARCH_ITEMS)
    /\ normalized "" = "".
Proof.
  exists (List.filter (item_matches (normalized q)) SEARCH_ITEMS).
  split; [|split; [|split; [|split; [|split]]]].
  - unfold predictive_search. fold (normalized q).
    by rewrite search_results_filter, !fmap_take.
  - apply filter_sublist.
  - intros item. by rewrite filter_elem_of, item_matches_spec.
  - apply take_ge.
    pose proof (sublist_length _ _ (filter_sublist (item_matches (normalized q)) SEARCH_ITEMS)) as H.
    change (length SEARCH_ITEMS) with 5 in H. lia.
  - intros ->. rewrite filter_all; [done|].
    intros item _. apply item_matches_empty.
  - by rewrite normalized_ascii.
Qed.

(** C3, a query on which the specification's wording and the service
    differ: "aadhaari" occurs in "apply for aadhaar" followed at once by
    "identity", yet the search returns nothing for it, since the service
    puts a space between the two.  The query is ASCII, so this is so
    whatever the Unicode database is. *)
Lemma search_concatenation_counterexample :
  exists item,
    item ∈ SEARCH_ITEMS
    /\ forall U : Unicode,
         matches_as_specified (normalized "aadhaari") item
         /\ predictive_search "aadhaari" = <["results" := JArr []]> ∅.
Proof.
  exists (SearchItem.mk "aadhaar" "Apply for Aadhaar" "Identity" "/guide/aadhaar"
            ["uidai"; "uid"; "identity"; "proof"]).
  split; [by left|]. intros U. split.
  - left. rewrite normalized_ascii by reflexivity.
    rewrite concatenation_catalog by (by left).
    apply contains_spec. vm_compute. reflexivity.
  - rewrite predictive_search_ascii by reflexivity. vm_compute. reflexivity.
Qed.

(** The queries of the specification's test list: "aad" finds the Aadhaar
    item alone, a query without a match finds nothing, and the empty query,
    or one of spaces only, finds the five items in the order of the catalog. *)
Example search_examples `{U : Unicode} :
  predictive_search "aad"
  = <["results" := JArr [JObj (SearchItem.model_dump
                                 (SearchItem.mk "aadhaar" "Apply for Aadhaar"
                                    "Identity" "/guide/aadhaar"
                                    ["uidai"; "uid"; "identity"; "proof"]))]]> ∅
  /\ predictive_search "zzz-nomatch" = <["results" := JArr []]> ∅
  /\ predictive_search ""
     = <["results" := JArr (JObj <$> (SearchItem.model_dump <$> SEARCH_ITEMS))]> ∅
  /\ predictive_search "   " = predictive_search ""
  /\ predictive_search " PAN Tax "
     = <["results" := JArr [JObj (SearchItem.model_dump
                                    (SearchItem.mk "pan" "Apply for PAN" "Tax"
                                       "/guide/pan"
                                       ["income tax"; "form 49a"; "epan"]))]]> ∅.
Proof.
  rewrite !(predictive_search_ascii (U := U)) by reflexivity.
  repeat split; vm_compute; reflexivity.
Qed.

(** Two queries outside ASCII.  In a database that lowers the Kelvin sign
    to "k", as Python's does, "PS" followed by the sign finds the passport
    item; in one for which the no-break space is white space, "pan" after
    such a space finds the PAN item. *)
Example search_beyond_ascii `{U : Unicode} :
  (lower ("PS" +:+ kelvin_sign) = "psk" ->
   predictive_search ("PS" +:+ kelvin_sign)
   = <["results" := JArr [JObj (SearchItem.model_dump
                                  (SearchItem.mk "passport" "Apply for Passport"
                                     "Travel" "/guide/passport"
                                     ["psk"; "tatkaal"; "seva"]))]]> ∅)
  /\ (strip (lower (no_break_space +:+ "pan")) = "pan" ->
      predictive_search (no_break_space +:+ "pan")
      = <["results" := JArr [JObj (SearchItem.model_dump
                                     (SearchItem.mk "pan" "Apply for PAN" "Tax"
                                        "/guide/pan"
                                        ["income tax"; "form 49a"; "epan"]))]]> ∅).
Proof.
  split; intros H; unfold predictive_search; cbv zeta; rewrite H.
  - rewrite (strip_ascii "psk") by reflexivity.
    rewrite search_results_ascii. vm_compute. reflexivity.
  - rewrite search_results_ascii. vm_compute. reflexivity.
Qed.

(** The other way round: "pan tax" is found by the service, in "apply for
    pan tax income tax ...", while it does not occur in the text without the
    spaces and is no prefix of the key or of a keyword. *)
Example search_space_join `{U : Unicode} :
  let item := SearchItem.mk "pan" "Apply for PAN" "Tax" "/guide/pan"
                ["income tax"; "form 49a"; "epan"] in
  item ∈ SEARCH_ITEMS
  /\ matches (normalized "pan tax") item
  /\ ~ matches_as_specified (normalized "pan tax") item.
Proof.
  cbv zeta.
  assert (SearchItem.mk "pan" "Apply for PAN" "Tax" "/guide/pan"
            ["income tax"; "form 49a"; "epan"] ∈ SEARCH_ITEMS) as Hi
    by (right; by left).
  split; [exact Hi|]. rewrite normalized_ascii by reflexivity. split.
  - apply item_matches_spec. rewrite item_matches_catalog by exact Hi.
    vm_compute. reflexivity.
  - unfold matches_as_specified. rewrite (concatenation_catalog _ Hi).
    intros [H | [H | [k [Hk H]]]].
    + apply contains_spec in H. vm_compute in H. discriminate H.
    + apply prefix_spec in H. vm_compute in H. discriminate H.
    + apply prefix_spec in H. cbn [SearchItem.keywords] in Hk.
      repeat (apply elem_of_cons in Hk as [-> | Hk];
              [vm_compute in H; discriminate H|]).
      by apply elem_of_nil in Hk.
Qed.

(** ** Guides *)

Lemma GUIDES_dom : dom GUIDES = list_to_set guide_keys.
Proof.
  unfold GUIDES, guide_keys. rewrite !dom_insert_L, dom_empty_L. simpl.
  set_solver.
Qed.

Lemma get_guide_Ok (key : string) :
  (exists g, get_guide key = Ok g) <-> key ∈ guide_keys.
Proof.
  rewrite <- (elem_of_list_to_set (C := gset string)), <- GUIDES_dom, elem_of_dom.
  unfold get_guide. destruct (GUIDES !! key) as [g|]; split.
  - by eexists.
  - intros _. by exists g.
  - intros [g H]. discriminate H.
  - intros [g H]. discriminate H.
Qed.

(** C8: [get_guide] succeeds exactly on the five keys of the catalog and
    raises the 404 error on any other; the guide of "pan" has six steps and
    the official link https://www.incometax.gov.in/. *)
Theorem get_guide_spec (key : string) :
  ((exists g, get_guide key = Ok g) <-> key ∈ guide_keys)
  /\ ((exists e, get_guide key = Raise e /\ NotFound e) <-> key ∉ guide_keys)
  /\ (exists g steps,
        get_guide "pan" = Ok g
        /\ g !! "steps" = Some (JArr (JStr <$> steps))
        /\ length steps = 6
        /\ g !! "official" = Some (JStr "https://www.incometax.gov.in/")).
Proof.
  split; [apply get_guide_Ok|]. split.
  - rewrite <- get_guide_Ok. unfold get_guide.
    destruct (GUIDES !! key) as [g|]; split.
    + intros [e [H _]]. discriminate H.
    + intros H. exfalso. apply H. by exists g.
    + intros _ [g H]. discriminate H.
    + intros _. eexists. split; [done|]. by eexists.
  - exists guide_pan.
    exists ["Choose Instant e-PAN or Regular PAN.";
            "Fill Form 49A (online).";
            "Pay the fee if required.";
            "Use Aadhaar e-KYC if possible (no paperwork).";
            "If not e-KYC, print, sign, and post the form.";
            "Get e-PAN by email; physical card comes by post."].
    repeat split; vm_compute; reflexivity.
Qed.

(** ** Hexadecimal tokens *)

Lemma unhex_app (acc : N) (s1 s2 : string) :
  Str.unhex acc (s1 +:+ s2) = Str.unhex (Str.unhex acc s1) s2.
Proof.
  revert acc. induction s1 as [|c s1 IH]; intros acc; [done|].
  rewrite append_cons. simpl. apply IH.
Qed.

Lemma hexval_hexdigit (d : N) : (d < 16)%N -> Str.hexval (Str.hexdigit d) = d.
Proof.
  intros Hd. unfold Str.hexval, Str.hexdigit.
  destruct (N.ltb_spec d 10).
  - rewrite N_ascii_embedding by lia.
    destruct (N.ltb_spec (48 + d) 58); lia.
  - rewrite N_ascii_embedding by lia.
    destruct (N.ltb_spec (87 + d) 58); lia.
Qed.

Lemma unhex_hex_digits (w : nat) (n acc : N) :
  Str.unhex acc (Str.hex_digits w n)
  = (acc * 16 ^ N.of_nat w + n mod 16 ^ N.of_nat w)%N.
Proof.
  revert n acc. induction w as [|w IH]; intros n acc.
  - simpl. rewrite N.mod_1_r. lia.
  - cbn [Str.hex_digits]. rewrite unhex_app, IH. cbn [Str.unhex].
    rewrite hexval_hexdigit by (apply N.mod_lt; lia).
    rewrite Nat2N.inj_succ, N.pow_succ_r'.
    rewrite (N.Div0.mod_mul_r n 16 (16 ^ N.of_nat w)). lia.
Qed.

Lemma hex_digits_inj (w : nat) (n m : N) :
  (n < 16 ^ N.of_nat w)%N -> (m < 16 ^ N.of_nat w)%N ->
  Str.hex_digits w n = Str.hex_digits w m -> n = m.
Proof.
  intros Hn Hm H.
  pose proof (unhex_hex_digits w n 0) as En.
  pose proof (unhex_hex_digits w m 0) as Em.
  rewrite H in En. rewrite En in Em.
  rewrite !N.mod_small in Em by done. lia.
Qed.

Lemma hex_digits_truthy (w : nat) (n : N) :
  Str.truthy (Str.hex_digits (S w) n) = true.
Proof.
  cbn [Str.hex_digits].
  generalize (Str.hex_digits w (n / 16)). intros s.
  destruct s; reflexivity.
Qed.

Lemma lt_pow2_bits (a n : N) :
  (forall i, (n <= i)%N -> N.testbit a i = false) -> (a < 2 ^ n)%N.
Proof.
  intros H. destruct (N.eq_dec a 0%N) as [->|Ha].
  - apply N.neq_0_lt_0, N.pow_nonzero. lia.
  - apply N.log2_lt_pow2; [lia|].
    destruct (N.lt_ge_cases (N.log2 a) n) as [Hlt|Hge]; [done|].
    specialize (H _ Hge). rewrite N.bit_log2 in H by done. discriminate H.
Qed.

Lemma uuid4_lt (rnd : N) : (UUID.uuid4 rnd < 2 ^ 128)%N.
Proof.
  apply lt_pow2_bits. intros i Hi. cbv beta zeta delta [UUID.uuid4].
  repeat (rewrite N.lor_spec || rewrite N.ldiff_spec).
  rewrite N.mod_pow2_bits_high by done.
  rewrite !N.shiftl_spec_high' by lia.
  rewrite (N.bits_above_log2 0x8000) by (simpl; lia).
  rewrite (N.bits_above_log2 4) by (simpl; lia).
  reflexivity.
Qed.

Lemma uuid_hex_inj (r1 r2 : N) :
  UUID.hex (UUID.uuid4 r1) = UUID.hex (UUID.uuid4 r2) ->
  UUID.uuid4 r1 = UUID.uuid4 r2.
Proof.
  apply hex_digits_inj; change (16 ^ N.of_nat 32)%N with (2 ^ 128)%N;
    apply uuid4_lt.
Qed.

Lemma uuid_hex_truthy (u : N) : Str.truthy (UUID.hex u) = true.
Proof. apply hex_digits_truthy. Qed.

(** ** The handlers on a configured store *)

Arguments UUID.hex : simpl never.
Arguments UUID.uuid4 : simpl never.
Arguments Str.hex_digits : simpl never.
Arguments timedelta_days : simpl never.
Arguments next_id : simpl never.

Ltac run_handler :=
  cbv beta iota zeta delta
    [login awaitable_get_user create_application post_applications
     list_applications init_payment update_one_setOnInsert create_document
     get_documents find_one insert_one _collection bind ret raise lift get_db
     put_db collection set_collection].

Lemma awaitable_get_user_run (d : database) (token : string) (now : Z) :
  awaitable_get_user token now (Some d)
  = (if Str.truthy token
     then match List.find (fun s => live_session token now (doc s)) (sessions d) with
          | Some s => Ok (Session.user_email (doc s))
          | None => Raise (HTTPException 401 "Invalid or expired token")
          end
     else Raise (HTTPException 401 "Missing token"),
     Some d).
Proof.
  run_handler. destruct (Str.truthy token); simpl; [|done].
  by destruct (List.find _ _).
Qed.

Lemma login_run (d : database) (req : LoginRequest.t) (now : Z) (rnd : N) :
  login req now rnd (Some d)
  = (Ok (response (req, now, rnd)),
     Some (Database
             (if existsb (fun s => String.eqb (User.email (doc s))
                                     (LoginRequest.email req)) (users d)
              then users d
              else users d ++ [Stored (next_id (users d)) (new_user req)])
             (sessions d ++ [Stored (next_id (sessions d)) (issued (req, now, rnd))])
             (applications d) (payments d))).
Proof.
  run_handler. destruct d as [us ss aps ps]; simpl.
  by destruct (existsb _ us).
Qed.

Lemma has_user_existsb (d : database) (email : string) :
  existsb (fun s => String.eqb (User.email (doc s)) email) (users d) = true
  <-> has_user email d.
Proof.
  rewrite existsb_exists. unfold has_user.
  split; intros [u [Hu He]]; exists u.
  - split; [by apply list_elem_of_In | by apply String.eqb_eq].
  - split; [by apply list_elem_of_In | by apply String.eqb_eq].
Qed.

Lemma live_session_true (token : string) (now : Z) (s : Session.t) :
  live_session token now s = true
  <-> Session.token s = token /\ (now < Session.expires_at s)%Z.
Proof.
  unfold live_session. by rewrite andb_true_iff, String.eqb_eq, Z.ltb_lt.
Qed.

Lemma find_live_None (d : database) (token : string) (now : Z) :
  List.find (fun s => live_session token now (doc s)) (sessions d) = None
  <-> forall s, s ∈ sessions d -> Session.token (doc s) = token ->
                (Session.expires_at (doc s) <= now)%Z.
Proof.
  split.
  - intros H s Hs Ht.
    pose proof (find_none _ _ H s (proj1 (list_elem_of_In _ _) Hs)) as Hl.
    simpl in Hl. destruct (Z.le_gt_cases (Session.expires_at (doc s)) now); [done|].
    assert (live_session token now (doc s) = true) as Hl'
      by (apply live_session_true; split; [done|lia]).
    congruence.
  - intros H. destruct (List.find _ _) as [s|] eqn:Hf; [|done].
    apply find_some in Hf as [Hs Hl]. apply live_session_true in Hl as [Ht Hn].
    apply list_elem_of_In in Hs. specialize (H s Hs Ht). lia.
Qed.

Lemma find_live_Some (d : database) (token : string) (now : Z)
    (s : stored N Session.t) :
  List.find (fun s => live_session token now (doc s)) (sessions d) = Some s ->
  s ∈ sessions d /\ Session.token (doc s) = token
  /\ (now < Session.expires_at (doc s))%Z.
Proof.
  intros Hf. apply find_some in Hf as [Hs Hl].
  apply live_session_true in Hl. split; [by apply list_elem_of_In | done].
Qed.

Lemma truthy_false (s : string) : Str.truthy s = false <-> s = "".
Proof. destruct s; simpl; split; congruence. Qed.

(** Without a configured store [login] answers the 500 error, and
    [awaitable_get_user] fails on [db[name]] once the token is not empty. *)
Example unconfigured_store :
  login asha_first 1000 1 None
  = (Raise (HTTPException 500 "Database not configured"), None)
  /\ awaitable_get_user "" 1000 None
     = (Raise (HTTPException 401 "Missing token"), None)
  /\ awaitable_get_user token_1 1000 None
     = (Raise (TypeError "'NoneType' object is not subscriptable"), None).
Proof. repeat split; reflexivity. Qed.

(** C1: [awaitable_get_user] raises the 401 error exactly when the token
    is empty, or no session holds it, or the sessions that hold it expire at
    or before the current time (a session that expires exactly now is
    expired); otherwise it returns the address of a session that holds the
    token and is still valid; in every case the store, and so each
    session's expiry, is left as it was. *)
Theorem awaitable_get_user_spec (d : database) (token : string) (now : Z) :
  let out := awaitable_get_user token now (Some d) in
  ((exists e, out.1 = Raise e /\ Unauthorized e)
   <-> token = ""
       \/ (forall s, s ∈ sessions d -> Session.token (doc s) <> token)
       \/ ((exists s, s ∈ sessions d /\ Session.token (doc s) = token)
           /\ forall s, s ∈ sessions d -> Session.token (doc s) = token ->
                        (Session.expires_at (doc s) <= now)%Z))
  /\ ((exists e, out.1 = Raise e /\ Unauthorized e)
      \/ (exists s, s ∈ sessions d /\ Session.token (doc s) = token
                    /\ (now < Session.expires_at (doc s))%Z
                    /\ out.1 = Ok (Session.user_email (doc s))))
  /\ out.2 = Some d.
Proof.
  cbv zeta. rewrite awaitable_get_user_run. cbn [fst snd].
  split; [|split; [|done]].
  - destruct (Str.truthy token) eqn:Ht.
    + assert (token <> "") as Hne by (intros ->; discriminate Ht).
      destruct (List.find _ _) as [s|] eqn:Hf.
      * apply find_live_Some in Hf as (Hs & Htok & Hnow). split.
        -- intros [e [H _]]. discriminate H.
        -- intros [H | [H | [_ H]]]; [done | by destruct (H s Hs) | ].
           specialize (H s Hs Htok). lia.
      * split; [|intros _; eexists; split; [done | by eexists]].
        intros _. right.
        pose proof (proj1 (find_live_None d token now) Hf) as Hall.
        destruct (existsb (fun s => String.eqb (Session.token (doc s)) token)
                    (sessions d)) eqn:Hex.
        -- right. split; [|done].
           apply existsb_exists in Hex as [s [Hs He]]. exists s.
           split; [by apply list_elem_of_In | by apply String.eqb_eq].
        -- left. intros s Hs Htok.
           assert (existsb (fun s => String.eqb (Session.token (doc s)) token)
                     (sessions d) = true) as Hex'; [|congruence].
           apply existsb_exists. exists s.
           split; [by apply list_elem_of_In | by apply String.eqb_eq].
    + apply truthy_false in Ht as ->. split; [by left|].
      intros _. eexists. split; [done | by eexists].
  - destruct (Str.truthy token).
    + destruct (List.find _ _) as [s|] eqn:Hf.
      * right. apply find_live_Some in Hf as (Hs & Htok & Hnow). by exists s.
      * left. eexists. split; [done | by eexists].
    + left. eexists. split; [done | by eexists].
Qed.

(** ** Login *)

Lemma find_app_Some {A} (P : A -> bool) (l k : list A) (x : A) :
  List.find P l = Some x -> List.find P (l ++ k) = Some x.
Proof.
  induction l as [|y l IH]; simpl; [done|].
  destruct (P y); [done | apply IH].
Qed.

Lemma find_app_None {A} (P : A -> bool) (l k : list A) :
  List.find P l = None -> List.find P (l ++ k) = List.find P k.
Proof.
  induction l as [|y l IH]; simpl; [done|].
  destruct (P y); [done | apply IH].
Qed.

Lemma authenticates_iff (d : database) (token : string) (now : Z) (email : string) :
  authenticates d token now email
  <-> Str.truthy token = true
      /\ exists s, List.find (fun s => live_session token now (doc s)) (sessions d)
                   = Some s
                   /\ Session.user_email (doc s) = email.
Proof.
  unfold authenticates. rewrite awaitable_get_user_run.
  destruct (Str.truthy token); [|split; [done | by intros [? _]]].
  destruct (List.find _ _) as [s|]; split.
  - intros H. injection H as H. split; [done | by exists s].
  - intros [_ [s' [H <-]]]. by injection H as ->.
  - done.
  - by intros [_ [s' [H _]]].
Qed.

(** Sessions that are appended do not change who a token authenticates. *)
Lemma authenticates_app (d d' : database) (token : string) (now : Z)
    (email : string) :
  sessions d `prefix_of` sessions d' ->
  authenticates d token now email -> authenticates d' token now email.
Proof.
  intros [k Hk]. rewrite !authenticates_iff. intros [Ht [s [Hf He]]].
  split; [done|]. exists s. split; [|done].
  rewrite Hk. by apply find_app_Some.
Qed.

(** A session that expires exactly now is expired; a microsecond earlier
    it is valid.  An empty and an unknown token are refused. *)
Example expiry_boundary :
  awaitable_get_user token_1 604800001000 (Some one_login)
  = (Raise (HTTPException 401 "Invalid or expired token"), Some one_login)
  /\ awaitable_get_user token_1 604800000999 (Some one_login)
     = (Ok "asha@example.in", Some one_login)
  /\ awaitable_get_user "" 5000 (Some one_login)
     = (Raise (HTTPException 401 "Missing token"), Some one_login)
  /\ awaitable_get_user "0123456789abcdef0123456789abcdef" 5000 (Some one_login)
     = (Raise (HTTPException 401 "Invalid or expired token"), Some one_login).
Proof. repeat split; vm_compute; reflexivity. Qed.

(** When tokens are unique, the session of a token is the one whose
    address is returned. *)
Lemma authenticates_unique (d : database) (token : string) (now : Z)
    (email : string) (s : stored N Session.t) :
  NoDup ((fun s => Session.token (doc s)) <$> sessions d) ->
  s ∈ sessions d -> Session.token (doc s) = token ->
  authenticates d token now email ->
  Session.user_email (doc s) = email /\ (now < Session.expires_at (doc s))%Z.
Proof.
  intros Hnd Hs Htok Ha. apply authenticates_iff in Ha as [_ [s' [Hf He]]].
  apply find_live_Some in Hf as (Hs' & Htok' & Hnow).
  assert (s = s') as ->; [|done].
  apply list_elem_of_lookup in Hs as [i Hi].
  apply list_elem_of_lookup in Hs' as [j Hj].
  assert (i = j) as ->; [|congruence].
  apply (NoDup_lookup _ i j token Hnd); rewrite list_lookup_fmap.
  - by rewrite Hi; simpl; rewrite Htok.
  - by rewrite Hj; simpl; rewrite Htok'.
Qed.

Lemma logins_run (calls : list login_call) (d : database) :
  exists d' new,
    logins calls (Some d) = (Ok (response <$> calls), Some d')
    /\ sessions d' = sessions d ++ new
    /\ doc <$> new = issued <$> calls
    /\ applications d' = applications d
    /\ payments d' = payments d.
Proof.
  revert d. induction calls as [|[[req now] rnd] calls IH]; intros d.
  - exists d, []. simpl. by rewrite app_nil_r.
  - cbn [logins fst snd]. unfold bind at 1. rewrite login_run.
    match goal with |- context [Some ?x] =>
      match x with Database _ _ _ _ => destruct (IH x) as (d' & new & Hr & Hs & Hn & Ha & Hp) end
    end.
    exists d', (Stored (next_id (sessions d)) (issued (req, now, rnd)) :: new).
    unfold bind at 1. rewrite Hr. cbn [sessions applications payments] in *.
    split; [done|]. split; [by rewrite Hs, <- app_assoc|].
    split; [|done]. rewrite !fmap_cons, Hn. done.
Qed.

(** C2 (as amended): every call of [login] stores one more session,
    after those that were there, whose token is the hexadecimal form of the
    UUID drawn for the call and whose expiry is the time of the call plus
    seven days; when the UUIDs drawn are pairwise different, so are the
    tokens, so that no call is given a token issued before. *)
Theorem login_issues_fresh_session (d : database) (calls : list login_call) :
  NoDup ((fun c => UUID.uuid4 c.2) <$> calls) ->
  exists resps d' new,
    logins calls (Some d) = (Ok resps, Some d')
    /\ sessions d' = sessions d ++ new
    /\ doc <$> new = issued <$> calls
    /\ LoginResponse.token <$> resps = (fun c => Session.token (issued c)) <$> calls
    /\ NoDup (LoginResponse.token <$> resps)
    /\ Forall (fun c => Session.expires_at (issued c)
                        = (c.1.2 + 7 * 86400 * 1000000)%Z) calls.
Proof.
  intros Hnd. destruct (logins_run calls d) as (d' & new & Hr & Hs & Hn & _ & _).
  exists (response <$> calls), d', new.
  assert (LoginResponse.token <$> (response <$> calls)
          = UUID.hex <$> ((fun c : login_call => UUID.uuid4 c.2) <$> calls)) as Htok
    by (rewrite <- !list_fmap_compose; done).
  repeat split; try done.
  - by rewrite <- list_fmap_compose.
  - rewrite Htok. apply NoDup_fmap_2_strong; [|done].
    intros x y Hx Hy Hxy.
    apply list_elem_of_fmap in Hx as [cx [-> _]].
    apply list_elem_of_fmap in Hy as [cy [-> _]].
    by apply uuid_hex_inj.
  - apply Forall_forall. intros c _. reflexivity.
Qed.

Lemma login_issues_fresh_session_witness :
  NoDup ((fun c : login_call => UUID.uuid4 c.2) <$> two_calls)
  /\ exists resps d' new,
       logins two_calls (Some empty_database) = (Ok resps, Some d')
       /\ sessions d' = sessions empty_database ++ new
       /\ doc <$> new = issued <$> two_calls
       /\ LoginResponse.token <$> resps
          = (fun c => Session.token (issued c)) <$> two_calls
       /\ NoDup (LoginResponse.token <$> resps)
       /\ Forall (fun c => Session.expires_at (issued c)
                           = (c.1.2 + 7 * 86400 * 1000000)%Z) two_calls.
Proof.
  assert (NoDup ((fun c : login_call => UUID.uuid4 c.2) <$> two_calls)) as H
    by (apply (bool_decide_unpack _); vm_compute; exact I).
  split; [exact H|].
  exact (login_issues_fresh_session empty_database two_calls H).
Defined.

(** C2, two calls that are given the same token.  [login] takes the token
    from [uuid4] and stores it without looking whether a session holds it
    already, so the tokens are as different as the UUIDs drawn are: here the
    entropy of the second call is that of the first with a variant bit set,
    a bit [uuid4] overwrites, and both calls draw the same UUID. *)
Lemma login_token_reused_counterexample :
  exists r1 r2 d,
    logins [(asha_first, 1000%Z, 0%N); (asha_second, 2000%Z, (2 ^ 62)%N)]
      (Some empty_database) = (Ok [r1; r2], Some d)
    /\ LoginResponse.token r1 = LoginResponse.token r2
    /\ Session.token <$> (doc <$> sessions d)
       = [LoginResponse.token r1; LoginResponse.token r1].
Proof. eexists _, _, _. vm_compute. done. Qed.

(** A token that [login] has just issued authenticates until its expiry. *)
Lemma login_token_authenticates (d : database) (req : LoginRequest.t)
    (now : Z) (rnd : N) (t : Z) :
  (t < now + timedelta_days 7)%Z ->
  exists r d' email,
    login req now rnd (Some d) = (Ok r, Some d')
    /\ sessions d `prefix_of` sessions d'
    /\ authenticates d' (LoginResponse.token r) t email
    /\ ((forall s, s ∈ sessions d -> Session.token (doc s) <> LoginResponse.token r)
        -> email = LoginRequest.email req).
Proof.
  intros Ht. rewrite login_run.
  set (tok := UUID.hex (UUID.uuid4 rnd)).
  set (new := Stored (next_id (sessions d)) (issued (req, now, rnd))).
  assert (live_session tok t (doc new) = true) as Hlive
    by (apply live_session_true; split; [done | cbn [doc new issued Session.expires_at fst snd]; lia]).
  destruct (List.find (fun s => live_session tok t (doc s)) (sessions d))
    as [s|] eqn:Hf.
  - eexists _, _, (Session.user_email (doc s)). split; [done|].
    cbn [sessions]. split; [by apply prefix_app_r|]. split.
    + apply authenticates_iff. split; [apply uuid_hex_truthy|].
      exists s. split; [|done]. cbn [sessions]. by apply find_app_Some.
    + intros Hfresh. apply find_live_Some in Hf as (Hs & Htok & _).
      by destruct (Hfresh s Hs).
  - eexists _, _, (LoginRequest.email req). split; [done|].
    cbn [sessions]. split; [by apply prefix_app_r|]. split; [|done].
    apply authenticates_iff. split; [apply uuid_hex_truthy|].
    exists new. split; [|done]. cbn [sessions].
    rewrite find_app_None by done. cbn [List.find].
    change (LoginResponse.token (response (req, now, rnd))) with tok.
    by rewrite Hlive.
Qed.

Lemma logins_prefix (calls : list login_call) (d : database) :
  exists rs d', logins calls (Some d) = (Ok rs, Some d')
                /\ sessions d `prefix_of` sessions d'.
Proof.
  destruct (logins_run calls d) as (d' & new & Hr & Hs & _).
  exists (response <$> calls), d'. split; [done|]. by exists new.
Qed.

(** C9: [login] keeps every session that was stored, unchanged and in its
    place; so a token issued by a call of [login] authenticates, at any time
    before its expiry, after any number of later calls of [login] just as it
    did before them. *)
Theorem login_keeps_sessions (d : database) (req : LoginRequest.t) (now : Z)
    (rnd : N) (later : list login_call) (t : Z) :
  (t < now + timedelta_days 7)%Z ->
  exists r d1 rs d2 email,
    login req now rnd (Some d) = (Ok r, Some d1)
    /\ logins later (Some d1) = (Ok rs, Some d2)
    /\ sessions d `prefix_of` sessions d1
    /\ sessions d1 `prefix_of` sessions d2
    /\ authenticates d1 (LoginResponse.token r) t email
    /\ authenticates d2 (LoginResponse.token r) t email
    /\ ((forall s, s ∈ sessions d -> Session.token (doc s) <> LoginResponse.token r)
        -> email = LoginRequest.email req).
Proof.
  intros Ht.
  destruct (login_token_authenticates d req now rnd t Ht)
    as (r & d1 & email & Hl & Hp & Ha & He).
  destruct (logins_prefix later d1) as (rs & d2 & Hls & Hp2).
  exists r, d1, rs, d2, email. repeat split; try done.
  by apply (authenticates_app d1 d2).
Qed.

Lemma login_keeps_sessions_witness :
  (1500 < 1000 + timedelta_days 7)%Z
  /\ exists r d1 rs d2 email,
       login asha_first 1000 1 (Some empty_database) = (Ok r, Some d1)
       /\ logins [(asha_second, 2000%Z, 2%N)] (Some d1) = (Ok rs, Some d2)
       /\ sessions empty_database `prefix_of` sessions d1
       /\ sessions d1 `prefix_of` sessions d2
       /\ authenticates d1 (LoginResponse.token r) 1500 email
       /\ authenticates d2 (LoginResponse.token r) 1500 email
       /\ ((forall s, s ∈ sessions empty_database ->
                      Session.token (doc s) <> LoginResponse.token r)
           -> email = LoginRequest.email asha_first).
Proof.
  assert (1500 < 1000 + timedelta_days 7)%Z as H by (vm_compute; reflexivity).
  split; [exact H|].
  exact (login_keeps_sessions empty_database asha_first 1000 1
           [(asha_second, 2000%Z, 2%N)] 1500 H).
Defined.

Lemma existsb_user_false (d : database) (email : string) :
  ~ has_user email d ->
  existsb (fun s => String.eqb (User.email (doc s)) email) (users d) = false.
Proof.
  intros Hn. destruct (existsb _ (users d)) eqn:Hex; [|done].
  by apply has_user_existsb in Hex.
Qed.

Lemma existsb_user_added (us : list (stored N User.t)) (oid : N)
    (req : LoginRequest.t) :
  existsb (fun s => String.eqb (User.email (doc s)) (LoginRequest.email req))
    (us ++ [Stored oid (new_user req)]) = true.
Proof.
  rewrite existsb_app. cbn [existsb doc new_user User.email].
  by rewrite String.eqb_refl, orb_true_r.
Qed.

(** C4: a call of [login] for an address that already has a user leaves
    the [user] collection as it was, whatever name and language the request
    carries; a user is stored only when the address is new, and a second
    call for the same address changes nothing of it, so the stored name is
    the one set by the first call. *)
Theorem login_upsert_create_only (d : database) (req1 req2 : LoginRequest.t)
    (now1 now2 : Z) (rnd1 rnd2 : N) :
  LoginRequest.email req2 = LoginRequest.email req1 ->
  exists r1 d1 r2 d2,
    login req1 now1 rnd1 (Some d) = (Ok r1, Some d1)
    /\ login req2 now2 rnd2 (Some d1) = (Ok r2, Some d2)
    /\ (has_user (LoginRequest.email req1) d -> users d1 = users d)
    /\ (~ has_user (LoginRequest.email req1) d ->
        users d1 = users d ++ [Stored (next_id (users d)) (new_user req1)])
    /\ has_user (LoginRequest.email req1) d1
    /\ users d2 = users d1.
Proof.
  intros He. eexists _, _, _, _.
  split; [apply login_run|]. split; [apply login_run|].
  cbn [users]. rewrite He.
  destruct (existsb _ (users d)) eqn:Hex.
  - pose proof (proj1 (has_user_existsb d _) Hex) as Hu.
    rewrite Hex. repeat split; done.
  - assert (~ has_user (LoginRequest.email req1) d) as Hn.
    { intros Hu. apply has_user_existsb in Hu. congruence. }
    rewrite existsb_user_added.
    repeat split; try done.
    exists (Stored (next_id (users d)) (new_user req1)).
    split; [|done]. apply elem_of_app. right. by constructor.
Qed.

Lemma login_upsert_create_only_witness :
  LoginRequest.email asha_second = LoginRequest.email asha_first
  /\ exists r1 d1 r2 d2,
       login asha_first 1000 1 (Some empty_database) = (Ok r1, Some d1)
       /\ login asha_second 2000 2 (Some d1) = (Ok r2, Some d2)
       /\ (has_user (LoginRequest.email asha_first) empty_database ->
           users d1 = users empty_database)
       /\ (~ has_user (LoginRequest.email asha_first) empty_database ->
           users d1 = users empty_database
                      ++ [Stored (next_id (users empty_database))
                            (new_user asha_first)])
       /\ has_user (LoginRequest.email asha_first) d1
       /\ users d2 = users d1.
Proof.
  split; [reflexivity|].
  exact (login_upsert_create_only empty_database asha_first asha_second
           1000 2000 1 2 eq_refl).
Defined.

(** The two calls of [two_calls] on an empty store: the user is stored by
    the first one, with the default name, and the second one, which carries
    a name and another language, leaves it as it is. *)
Example two_logins_users :
  exists rs d,
    logins two_calls (Some empty_database) = (Ok rs, Some d)
    /\ users d = [Stored 1%N (User.mk "Citizen" "asha@example.in" "en" true)]
    /\ LoginResponse.name <$> rs = [None; Some "Asha"].
Proof. eexists _, _. vm_compute. done. Qed.

(** C10: the name in the response of [login] is the name of the request,
    absent when the request has none, and not the stored one: on a first
    call without a name the user is stored as "Citizen" and the response has
    no name, and a later call with a name answers that name while the stored
    user stays as it was. *)
Theorem login_response_echoes_name (d : database) (req : LoginRequest.t)
    (now : Z) (rnd : N) :
  (exists r d', login req now rnd (Some d) = (Ok r, Some d')
                /\ LoginResponse.name r = LoginRequest.name req)
  /\ (forall lang n now2 rnd2,
        LoginRequest.name req = None ->
        ~ has_user (LoginRequest.email req) d ->
        exists r1 d1 r2 d2 u,
          login req now rnd (Some d) = (Ok r1, Some d1)
          /\ LoginResponse.name r1 = None
          /\ users d1 = users d ++ [u]
          /\ User.name (doc u) = "Citizen"
          /\ User.email (doc u) = LoginRequest.email req
          /\ login (LoginRequest.mk (LoginRequest.email req) (Some n) lang)
               now2 rnd2 (Some d1) = (Ok r2, Some d2)
          /\ LoginResponse.name r2 = Some n
          /\ users d2 = users d1).
Proof.
  split.
  - rewrite login_run. by eexists _, _.
  - intros lang n now2 rnd2 Hname Hn.
    eexists _, _, _, _, (Stored (next_id (users d)) (new_user req)).
    split; [apply login_run|].
    rewrite login_run. cbn [users LoginRequest.email].
    rewrite (existsb_user_false d _ Hn), existsb_user_added.
    repeat split; try done.
    cbn [doc new_user User.name]. by rewrite Hname.
Qed.

Lemma login_response_echoes_name_witness :
  LoginRequest.name asha_first = None
  /\ ~ has_user (LoginRequest.email asha_first) empty_database
  /\ exists r1 d1 r2 d2 u,
       login asha_first 1000 1 (Some empty_database) = (Ok r1, Some d1)
       /\ LoginResponse.name r1 = None
       /\ users d1 = users empty_database ++ [u]
       /\ User.name (doc u) = "Citizen"
       /\ User.email (doc u) = LoginRequest.email asha_first
       /\ login (LoginRequest.mk (LoginRequest.email asha_first) (Some "Asha")
                   (Some "hi")) 2000 2 (Some d1) = (Ok r2, Some d2)
       /\ LoginResponse.name r2 = Some "Asha"
       /\ users d2 = users d1.
Proof.
  assert (~ has_user (LoginRequest.email asha_first) empty_database) as H.
  { intros [u [Hu _]]. by apply elem_of_nil in Hu. }
  split; [reflexivity|]. split; [exact H|].
  exact (proj2 (login_response_echoes_name empty_database asha_first 1000 1)
           (Some "hi") "Asha" 2000%Z 2%N eq_refl H).
Defined.

(** ** Applications *)

Lemma create_document_run {A} (name : collection_name A) (data : A)
    (d : database) :
  create_document name data (Some d)
  = (Ok (str_oid (next_id (collection name d))),
     Some (set_collection name
             (collection name d ++ [Stored (next_id (collection name d)) data]) d)).
Proof. reflexivity. Qed.

Lemma create_application_run (d : database) (payload : ApplicationCreate.t)
    (token : string) (now : Z) (email : string) :
  authenticates d token now email ->
  create_application payload token now (Some d)
  = match Application.new email (ApplicationCreate.doc_type payload)
            (ApplicationCreate.metadata payload) with
    | Ok a =>
        (Ok (<["reference" := JStr (str_oid (next_id (applications d)))]>
               (<["status" := JStr (Application.status a)]> ∅)),
         Some (Database (users d) (sessions d)
                 (applications d ++ [Stored (next_id (applications d)) a])
                 (payments d)))
    | Raise e => (Raise e, Some d)
    end.
Proof.
  intros Ha. unfold create_application, bind at 1. rewrite Ha.
  unfold bind at 1, lift. destruct (Application.new _ _ _) as [a|e]; [|done].
  unfold bind at 1. by rewrite create_document_run.
Qed.

Lemma model_validate_status (body : gmap string json) (v : json) :
  ApplicationCreate.model_validate (<["status" := v]> body)
  = ApplicationCreate.model_validate body.
Proof.
  unfold ApplicationCreate.model_validate.
  by rewrite !lookup_insert_ne.
Qed.

Lemma model_validate_Ok (body : gmap string json) (payload : ApplicationCreate.t) :
  ApplicationCreate.model_validate body = Ok payload ->
  body !! "doc_type" = Some (JStr (ApplicationCreate.doc_type payload))
  /\ ApplicationCreate.metadata payload = body_metadata body.
Proof.
  unfold ApplicationCreate.model_validate, body_metadata.
  destruct (body !! "doc_type") as [[| | | |dt| |]|]; try done.
  destruct (body !! "metadata") as [[| | | | | |m]|]; try done;
    intros H; injection H as <-; done.
Qed.

Lemma Application_new_Ok (email dt : string) (m : gmap string json)
    (a : Application.t) :
  Application.new email dt m = Ok a ->
  a = Application.mk email dt "draft" None m /\ dt ∈ Application.doc_types.
Proof.
  unfold Application.new. case_bool_decide as Hin; [|done].
  intros Heq. by injection Heq as <-.
Qed.

(** C5: with a valid token, whatever the request body holds under
    "status", an application that [POST /applications] stores has the status
    "draft", and so has the answer; the stored record has the address of the
    authenticated user and the metadata of the body as they were given.  A
    body with one of the five document types and, if any, a dictionary as
    metadata is accepted. *)
Theorem create_application_status_draft (d : database)
    (body : gmap string json) (token : string) (now : Z) (email : string) :
  authenticates d token now email ->
  (forall resp db',
     post_applications body token now (Some d) = (Ok resp, db') ->
     exists a,
       db' = Some (Database (users d) (sessions d)
                     (applications d ++ [Stored (next_id (applications d)) a])
                     (payments d))
       /\ resp = <["reference" := JStr (str_oid (next_id (applications d)))]>
                  (<["status" := JStr "draft"]> ∅)
       /\ Application.status a = "draft"
       /\ Application.user_email a = email
       /\ Application.metadata a = body_metadata body
       /\ body !! "doc_type" = Some (JStr (Application.doc_type a)))
  /\ (forall dt,
        body !! "doc_type" = Some (JStr dt) ->
        dt ∈ Application.doc_types ->
        body !! "metadata" = None \/ (exists m, body !! "metadata" = Some (JObj m)) ->
        exists resp db', post_applications body token now (Some d) = (Ok resp, db'))
  /\ (forall v,
        post_applications (<["status" := v]> body) token now (Some d)
        = post_applications body token now (Some d)).
Proof.
  intros Ha. split; [|split].
  - intros resp db'. unfold post_applications, bind at 1, lift.
    destruct (ApplicationCreate.model_validate body) as [payload|e] eqn:Hv; [|done].
    rewrite (create_application_run d payload token now email Ha).
    destruct (Application.new _ _ _) as [a|e] eqn:Hn; [|done].
    apply model_validate_Ok in Hv as [Hdt Hm].
    apply Application_new_Ok in Hn as [-> _].
    intros H. injection H as <- <-. exists (Application.mk email
      (ApplicationCreate.doc_type payload) "draft" None
      (ApplicationCreate.metadata payload)).
    repeat split; done.
  - intros dt Hdt Hin Hm. unfold post_applications, bind at 1, lift.
    assert (exists m, ApplicationCreate.model_validate body
                      = Ok (ApplicationCreate.mk dt m)) as [m ->].
    { unfold ApplicationCreate.model_validate. rewrite Hdt.
      destruct Hm as [-> | [m ->]]; by eexists. }
    rewrite (create_application_run d _ token now email Ha).
    unfold Application.new. cbn [ApplicationCreate.doc_type].
    rewrite bool_decide_eq_true_2 by done. by eexists _, _.
  - intros v. unfold post_applications. by rewrite model_validate_status.
Qed.

Lemma create_application_status_draft_witness :
  authenticates one_login token_1 5000 "asha@example.in"
  /\ exists resp db',
       post_applications pan_body token_1 5000 (Some one_login) = (Ok resp, db')
       /\ exists a,
            db' = Some (Database (users one_login) (sessions one_login)
                          (applications one_login
                           ++ [Stored (next_id (applications one_login)) a])
                          (payments one_login))
            /\ resp = <["reference" := JStr (str_oid (next_id (applications one_login)))]>
                       (<["status" := JStr "draft"]> ∅)
            /\ Application.status a = "draft"
            /\ Application.user_email a = "asha@example.in"
            /\ Application.metadata a = body_metadata pan_body
            /\ pan_body !! "doc_type" = Some (JStr (Application.doc_type a)).
Proof.
  assert (authenticates one_login token_1 5000 "asha@example.in") as Ha
    by (vm_compute; reflexivity).
  split; [exact Ha|].
  destruct (proj1 (proj2 (create_application_status_draft one_login pan_body
                            token_1 5000 "asha@example.in" Ha)) "pan")
    as (resp & db' & Hp).
  - vm_compute. reflexivity.
  - apply (bool_decide_unpack _). vm_compute. exact I.
  - right. eexists. vm_compute. reflexivity.
  - exists resp, db'. split; [exact Hp|].
    exact (proj1 (create_application_status_draft one_login pan_body
                    token_1 5000 "asha@example.in" Ha) resp db' Hp).
Defined.

Lemma list_applications_run (d : database) (token : string) (now : Z)
    (email : string) :
  authenticates d token now email ->
  list_applications token now (Some d)
  = (Ok (render_id
           <$> take 50
                 (List.filter
                    (fun s => String.eqb (Application.user_email (doc s)) email)
                    (applications d))),
     Some d).
Proof.
  intros Ha. unfold list_applications, bind at 1. by rewrite Ha.
Qed.

(** C6: with a valid token, [list_applications] answers the first fifty,
    at most, of the stored applications whose [user_email] is the address of
    the authenticated user, each with its identifier turned into a string;
    no record of another user is among them, and the store is not changed. *)
Theorem list_applications_spec (d : database) (token : string) (now : Z)
    (email : string) :
  authenticates d token now email ->
  exists items,
    list_applications token now (Some d) = (Ok items, Some d)
    /\ length items <= 50
    /\ (forall it, it ∈ items ->
          Application.user_email (doc it) = email
          /\ exists s, s ∈ applications d
                       /\ _id it = str_oid (_id s) /\ doc it = doc s)
    /\ items
       = render_id
           <$> take 50
                 (List.filter
                    (fun s => String.eqb (Application.user_email (doc s)) email)
                    (applications d)).
Proof.
  intros Ha. eexists. split; [by apply list_applications_run|].
  split; [|split; [|done]].
  - rewrite length_fmap, length_take. lia.
  - intros it Hit. apply list_elem_of_fmap in Hit as [s [-> Hs]].
    apply elem_of_take in Hs as [i [Hs _]].
    apply list_elem_of_lookup_2 in Hs.
    apply filter_elem_of in Hs as [Hs He]. apply String.eqb_eq in He.
    split; [done|]. by exists s.
Qed.

Lemma list_applications_spec_witness :
  authenticates two_applications token_1 5000 "asha@example.in"
  /\ list_applications token_1 5000 (Some two_applications)
     = (Ok [Stored "000000000000000000000002"
              (Application.mk "asha@example.in" "pan" "draft" None ∅)],
        Some two_applications).
Proof.
  assert (authenticates two_applications token_1 5000 "asha@example.in") as Ha
    by (vm_compute; reflexivity).
  split; [exact Ha|].
  destruct (list_applications_spec _ _ _ _ Ha) as (items & Hl & _ & _ & ->).
  exact Hl.
Defined.

(** ** Payments *)

Lemma init_payment_run (d : database) (payload : PaymentInit.t)
    (token : string) (now : Z) (email : string) :
  authenticates d token now email ->
  init_payment payload token now (Some d)
  = match Payment.new email (PaymentInit.purpose payload)
            (PaymentInit.amount payload) (PaymentInit.application_ref payload) with
    | Ok pay =>
        (Ok (<["payment_id" := JStr (str_oid (next_id (payments d)))]>
               (<["status" := JStr "initiated"]> ∅)),
         Some (Database (users d) (sessions d) (applications d)
                 (payments d ++ [Stored (next_id (payments d)) pay])))
    | Raise e => (Raise e, Some d)
    end.
Proof.
  intros Ha. unfold init_payment, bind at 1. rewrite Ha.
  unfold bind at 1, lift. destruct (Payment.new _ _ _ _) as [pay|e]; [|done].
  unfold bind at 1. by rewrite create_document_run.
Qed.

(** A negative amount does not satisfy [ge=0]. *)
Lemma lt0_not_ge0 (x : spec_float) :
  SFltb x (S754_zero false) = true -> Payment.ge0 x = false.
Proof. by destruct x as [[]|[]| |[] m e]. Qed.

(** C7: with a valid token, [init_payment] with a negative amount raises
    a validation error, which is not the 401 error, and leaves the store as
    it was; with an amount that is at least zero it stores one payment, of
    status "initiated", and answers its identifier and the status
    "initiated". *)
Theorem init_payment_spec (d : database) (payload : PaymentInit.t)
    (token : string) (now : Z) (email : string) :
  authenticates d token now email ->
  (SFltb (PaymentInit.amount payload) (S754_zero false) = true ->
   exists e, init_payment payload token now (Some d) = (Raise e, Some d)
             /\ InvalidInput e /\ ~ Unauthorized e)
  /\ (SFleb (S754_zero false) (PaymentInit.amount payload) = true ->
      exists pay,
        init_payment payload token now (Some d)
        = (Ok (<["payment_id" := JStr (str_oid (next_id (payments d)))]>
                 (<["status" := JStr "initiated"]> ∅)),
           Some (Database (users d) (sessions d) (applications d)
                   (payments d ++ [Stored (next_id (payments d)) pay])))
        /\ pay = Payment.mk email (PaymentInit.purpose payload)
                   (PaymentInit.amount payload) "INR" "initiated"
                   (PaymentInit.application_ref payload) None).
Proof.
  intros Ha. rewrite (init_payment_run d payload token now email Ha).
  unfold Payment.new. split.
  - intros Hlt. rewrite (lt0_not_ge0 _ Hlt). eexists. split; [done|]. split.
    + by eexists _, _.
    + intros [detail H]. discriminate H.
  - intros Hge. unfold Payment.ge0. rewrite Hge. by eexists.
Qed.

Lemma init_payment_spec_witness :
  authenticates one_login token_1 5000 "asha@example.in"
  /\ (exists e,
        init_payment (PaymentInit.mk "fee" minus_one None) token_1 5000
          (Some one_login) = (Raise e, Some one_login)
        /\ InvalidInput e /\ ~ Unauthorized e)
  /\ (exists pay,
        init_payment (PaymentInit.mk "fee" two_hundred_fifty None) token_1 5000
          (Some one_login)
        = (Ok (<["payment_id" := JStr (str_oid (next_id (payments one_login)))]>
                 (<["status" := JStr "initiated"]> ∅)),
           Some (Database (users one_login) (sessions one_login)
                   (applications one_login)
                   (payments one_login ++ [Stored (next_id (payments one_login)) pay])))
        /\ pay = Payment.mk "asha@example.in" "fee" two_hundred_fifty "INR"
                   "initiated" None None).
Proof.
  assert (authenticates one_login token_1 5000 "asha@example.in") as Ha
    by (vm_compute; reflexivity).
  split; [exact Ha|]. split.
  - exact (proj1 (init_payment_spec one_login (PaymentInit.mk "fee" minus_one None)
                    token_1 5000 "asha@example.in" Ha) eq_refl).
  - exact (proj2 (init_payment_spec one_login
                    (PaymentInit.mk "fee" two_hundred_fifty None)
                    token_1 5000 "asha@example.in" Ha) eq_refl).
Defined.

(** ** The two authentication paths *)

Lemma get_user_from_token_run (d : database) (token : string) (now : Z) :
  get_user_from_token token now (Some d)
  = (match List.find (fun s => live_session token now (doc s)) (sessions d) with
     | Some s => Ok (Session.user_email (doc s))
     | None => Raise (HTTPException 401 "Invalid or expired token")
     end,
     Some d).
Proof.
  cbv beta iota zeta delta
    [get_user_from_token find_one _collection bind ret raise get_db collection].
  by destruct (List.find _ _).
Qed.

(** X1: on a configured store [get_user_from_token] and
    [awaitable_get_user] give the same answer for every token that is not
    empty. *)
Theorem get_user_from_token_agrees (d : database) (token : string) (now : Z) :
  token <> "" ->
  get_user_from_token token now (Some d)
  = awaitable_get_user token now (Some d).
Proof.
  intros Hne. rewrite get_user_from_token_run, awaitable_get_user_run.
  destruct (Str.truthy token) eqn:Ht; [done|].
  by apply truthy_false in Ht.
Qed.

Lemma get_user_from_token_agrees_witness :
  token_1 <> ""
  /\ get_user_from_token token_1 5000 (Some one_login)
     = awaitable_get_user token_1 5000 (Some one_login).
Proof.
  assert (token_1 <> "") as H by discriminate.
  split; [exact H|].
  exact (get_user_from_token_agrees one_login token_1 5000 H).
Defined.

(** X2: without a configured store [get_user_from_token] answers the 500
    error for every token, while [awaitable_get_user], and with it the three
    handlers that call it first, answers the 401 error for the empty token
    and fails with a [TypeError] on [db[name]] for any other; [db] stays
    [None]. *)
Theorem unconfigured_store_errors (token : string) (now : Z)
    (payload : ApplicationCreate.t) (pay : PaymentInit.t) :
  let e := if Str.truthy token
           then TypeError "'NoneType' object is not subscriptable"
           else HTTPException 401 "Missing token" in
  get_user_from_token token now None
  = (Raise (HTTPException 500 "Database not configured"), None)
  /\ awaitable_get_user token now None = (Raise e, None)
  /\ create_application payload token now None = (Raise e, None)
  /\ list_applications token now None = (Raise e, None)
  /\ init_payment pay token now None = (Raise e, None).
Proof. cbv zeta. by destruct token. Qed.

(** ** Authentication comes first *)

Lemma not_authenticates (d : database) (token : string) (now : Z) :
  (forall email, ~ authenticates d token now email) ->
  exists detail,
    awaitable_get_user token now (Some d)
    = (Raise (HTTPException 401 detail), Some d).
Proof.
  intros Hn. rewrite awaitable_get_user_run.
  destruct (Str.truthy token) eqn:Ht; [|by eexists].
  destruct (List.find _ _) as [s|] eqn:Hf; [|by eexists].
  destruct (Hn (Session.user_email (doc s))).
  apply authenticates_iff. split; [done|]. by exists s.
Qed.

(** X3: with a token that does not authenticate, [create_application],
    [list_applications] and [init_payment] raise the 401 error of
    [awaitable_get_user] and leave the store as it was, whatever the payload
    is: nothing is validated or written before the token is checked. *)
Theorem unauthorized_before_anything (d : database) (token : string) (now : Z)
    (payload : ApplicationCreate.t) (pay : PaymentInit.t) :
  (forall email, ~ authenticates d token now email) ->
  exists e,
    Unauthorized e
    /\ awaitable_get_user token now (Some d) = (Raise e, Some d)
    /\ create_application payload token now (Some d) = (Raise e, Some d)
    /\ list_applications token now (Some d) = (Raise e, Some d)
    /\ init_payment pay token now (Some d) = (Raise e, Some d).
Proof.
  intros Hn. destruct (not_authenticates d token now Hn) as [detail Ha].
  exists (HTTPException 401 detail). split; [by eexists|]. split; [done|].
  unfold create_application, list_applications, init_payment.
  unfold bind at 1 4 6. by rewrite Ha.
Qed.

Lemma unauthorized_before_anything_witness :
  (forall email, ~ authenticates one_login "" 5000 email)
  /\ exists e,
       Unauthorized e
       /\ awaitable_get_user "" 5000 (Some one_login) = (Raise e, Some one_login)
       /\ create_application (ApplicationCreate.mk "ration" ∅) "" 5000
            (Some one_login) = (Raise e, Some one_login)
       /\ list_applications "" 5000 (Some one_login) = (Raise e, Some one_login)
       /\ init_payment (PaymentInit.mk "fee" minus_one None) "" 5000
            (Some one_login) = (Raise e, Some one_login).
Proof.
  assert (forall email, ~ authenticates one_login "" 5000 email) as H
    by (intros email Ha; discriminate Ha).
  split; [exact H|].
  exact (unauthorized_before_anything one_login "" 5000
           (ApplicationCreate.mk "ration" ∅)
           (PaymentInit.mk "fee" minus_one None) H).
Defined.

(** X4: with a valid token, [create_application] for a document type
    that is not one of the five raises the validation error of the
    [Application] model and stores nothing. *)
Theorem create_application_rejects_doc_type (d : database)
    (payload : ApplicationCreate.t) (token : string) (now : Z) (email : string) :
  authenticates d token now email ->
  ApplicationCreate.doc_type payload ∉ Application.doc_types ->
  exists e,
    create_application payload token now (Some d) = (Raise e, Some d)
    /\ InvalidInput e /\ ~ Unauthorized e.
Proof.
  intros Ha Hdt. rewrite (create_application_run d payload token now email Ha).
  unfold Application.new. rewrite bool_decide_eq_false_2 by done.
  eexists. split; [done|]. split; [by eexists _, _|].
  intros [detail H]. discriminate H.
Qed.

Lemma create_application_rejects_doc_type_witness :
  authenticates one_login token_1 5000 "asha@example.in"
  /\ (ApplicationCreate.doc_type (ApplicationCreate.mk "ration" ∅)
      ∉ Application.doc_types)
  /\ exists e,
       create_application (ApplicationCreate.mk "ration" ∅) token_1 5000
         (Some one_login) = (Raise e, Some one_login)
       /\ InvalidInput e /\ ~ Unauthorized e.
Proof.
  assert (authenticates one_login token_1 5000 "asha@example.in") as Ha
    by (vm_compute; reflexivity).
  assert (ApplicationCreate.doc_type (ApplicationCreate.mk "ration" ∅)
          ∉ Application.doc_types) as Hdt
    by (apply (bool_decide_unpack _); vm_compute; exact I).
  split; [exact Ha|]. split; [exact Hdt|].
  exact (create_application_rejects_doc_type one_login
           (ApplicationCreate.mk "ration" ∅) token_1 5000 "asha@example.in"
           Ha Hdt).
Defined.

(** ** Creating and listing applications *)

Lemma list_applications_owned (d : database) (token : string) (now : Z)
    (email : string) :
  authenticates d token now email ->
  list_applications token now (Some d)
  = (Ok (render_id <$> take 50 (owned email d)), Some d).
Proof. apply list_applications_run. Qed.

Lemma authenticates_sessions (d d' : database) (token : string) (now : Z)
    (email : string) :
  sessions d' = sessions d ->
  authenticates d token now email -> authenticates d' token now email.
Proof.
  intros Hs. apply authenticates_app. rewrite Hs. done.
Qed.

Lemma owned_app_same (us : list (stored N User.t))
    (ss : list (stored N Session.t)) (aps : list (stored N Application.t))
    (ps : list (stored N Payment.t)) (x : stored N Application.t)
    (email : string) :
  Application.user_email (doc x) = email ->
  owned email (Database us ss (aps ++ [x]) ps)
  = owned email (Database us ss aps ps) ++ [x].
Proof.
  intros He. unfold owned. cbn [applications].
  rewrite List.filter_app. cbn [List.filter].
  by rewrite He, String.eqb_refl.
Qed.

Lemma owned_app_other (us : list (stored N User.t))
    (ss : list (stored N Session.t)) (aps : list (stored N Application.t))
    (ps : list (stored N Payment.t)) (x : stored N Application.t)
    (email : string) :
  Application.user_email (doc x) <> email ->
  owned email (Database us ss (aps ++ [x]) ps)
  = owned email (Database us ss aps ps).
Proof.
  intros He. unfold owned. cbn [applications].
  rewrite List.filter_app. cbn [List.filter].
  apply String.eqb_neq in He. by rewrite He, app_nil_r.
Qed.

(** X5: [create_application] stores its record under the identifier it
    answers as reference.  When the caller's [list_applications] had fewer
    than fifty records, the list afterwards has them all and the new one,
    one more in all; when it had fifty, it still has fifty, fewer than the
    caller owns, so that not every application of the caller is shown. *)
Theorem create_then_list (d : database) (payload : ApplicationCreate.t)
    (token : string) (now now' : Z) (email : string) :
  authenticates d token now email ->
  authenticates d token now' email ->
  ApplicationCreate.doc_type payload ∈ Application.doc_types ->
  exists resp d' a before after,
    create_application payload token now (Some d) = (Ok resp, Some d')
    /\ applications d' ≡ₚ a :: applications d
    /\ resp !! "reference" = Some (JStr (_id (render_id a)))
    /\ list_applications token now' (Some d) = (Ok before, Some d)
    /\ list_applications token now' (Some d') = (Ok after, Some d')
    /\ (length before < 50 ->
        render_id a ∈ after
        /\ (forall x, x ∈ before -> x ∈ after)
        /\ length after = S (length before))
    /\ (length before = 50 ->
        length after = 50 /\ length after < length (owned email d')).
Proof.
  intros Ha Ha' Hdt.
  rewrite (create_application_run d payload token now email Ha).
  unfold Application.new. rewrite bool_decide_eq_true_2 by done.
  set (a := Stored (next_id (applications d))
              (Application.mk email (ApplicationCreate.doc_type payload)
                 "draft" None (ApplicationCreate.metadata payload))).
  eexists _, _, a, _, _. split; [done|].
  split; [cbn [applications]; by rewrite Permutation_app_comm|].
  split; [by rewrite lookup_insert_eq|].
  split; [by apply list_applications_owned|].
  split.
  { apply list_applications_owned.
    by apply (authenticates_sessions d). }
  destruct d as [us ss aps ps]. cbn [users sessions applications payments].
  rewrite owned_app_same by done.
  set (old := owned email (Database us ss aps ps)).
  rewrite !length_fmap, !length_take, length_app.
  change (length [a]) with 1. split; intros Hlen.
  - rewrite (take_ge (old ++ [a])) by (rewrite length_app; simpl; lia).
    rewrite (take_ge old) by lia. rewrite fmap_app.
    split; [|split].
    + apply elem_of_app. right. by constructor.
    + intros x Hx. apply elem_of_app. by left.
    + lia.
  - lia.
Qed.

Lemma create_then_list_witness :
  authenticates fifty_applications token_1 5000 "asha@example.in"
  /\ authenticates fifty_applications token_1 6000 "asha@example.in"
  /\ ApplicationCreate.doc_type (ApplicationCreate.mk "pan" ∅)
     ∈ Application.doc_types
  /\ exists resp d' a before after,
       create_application (ApplicationCreate.mk "pan" ∅) token_1 5000
         (Some fifty_applications) = (Ok resp, Some d')
       /\ applications d' ≡ₚ a :: applications fifty_applications
       /\ resp !! "reference" = Some (JStr (_id (render_id a)))
       /\ list_applications token_1 6000 (Some fifty_applications)
          = (Ok before, Some fifty_applications)
       /\ list_applications token_1 6000 (Some d') = (Ok after, Some d')
       /\ (length before < 50 ->
           render_id a ∈ after
           /\ (forall x, x ∈ before -> x ∈ after)
           /\ length after = S (length before))
       /\ (length before = 50 ->
           length after = 50
           /\ length after < length (owned "asha@example.in" d')).
Proof.
  assert (authenticates fifty_applications token_1 5000 "asha@example.in") as H1
    by (vm_compute; reflexivity).
  assert (authenticates fifty_applications token_1 6000 "asha@example.in") as H2
    by (vm_compute; reflexivity).
  assert (ApplicationCreate.doc_type (ApplicationCreate.mk "pan" ∅)
          ∈ Application.doc_types) as H3
    by (apply (bool_decide_unpack _); vm_compute; exact I).
  split; [exact H1|]. split; [exact H2|]. split; [exact H3|].
  exact (create_then_list fifty_applications (ApplicationCreate.mk "pan" ∅)
           token_1 5000 6000 "asha@example.in" H1 H2 H3).
Defined.

(** The user of [fifty_applications] is shown fifty records, before and
    after a fifty-first is stored. *)
Example fifty_first_not_listed :
  let before := list_applications token_1 6000 (Some fifty_applications) in
  let created := create_application (ApplicationCreate.mk "pan" ∅) token_1 5000
                   (Some fifty_applications) in
  (length <$> (applications <$> created.2)) = Some 51
  /\ match before.1 with Ok items => length items = 50 | Raise _ => False end
  /\ match (list_applications token_1 6000 created.2).1 with
     | Ok items => length items = 50
     | Raise _ => False
     end.
Proof. vm_compute. repeat split; reflexivity. Qed.

(** X6: an application stored for one user does not change what
    [list_applications] answers to another user. *)
Theorem create_leaves_other_lists (d : database) (payload : ApplicationCreate.t)
    (token_a token_b : string) (now_a now_b : Z) (a b : string) :
  authenticates d token_a now_a a ->
  authenticates d token_b now_b b ->
  a <> b ->
  exists r d' items,
    create_application payload token_a now_a (Some d) = (r, Some d')
    /\ list_applications token_b now_b (Some d) = (Ok items, Some d)
    /\ list_applications token_b now_b (Some d') = (Ok items, Some d').
Proof.
  intros Ha Hb Hne.
  rewrite (create_application_run d payload token_a now_a a Ha).
  rewrite (list_applications_owned d token_b now_b b Hb).
  destruct (Application.new _ _ _) as [x|e] eqn:Hx.
  - apply Application_new_Ok in Hx as [-> _].
    eexists _, _, _. split; [done|]. split; [done|].
    rewrite (list_applications_owned _ token_b now_b b)
      by (by apply (authenticates_sessions d)).
    destruct d as [us ss aps ps]. cbn [users sessions applications payments].
    by rewrite owned_app_other.
  - eexists _, _, _. split; [done|]. split; [done|].
    by apply list_applications_owned.
Qed.

Lemma create_leaves_other_lists_witness :
  authenticates two_applications token_1 5000 "asha@example.in"
  /\ authenticates
       (Database (users two_applications)
          (sessions two_applications
           ++ [Stored 2%N (Session.mk "ravi@example.in" "r" 9000%Z)])
          (applications two_applications) []) "r" 6000 "ravi@example.in"
  /\ "asha@example.in" <> "ravi@example.in"
  /\ exists r d' items,
       create_application (ApplicationCreate.mk "pan" ∅) token_1 5000
         (Some (Database (users two_applications)
                  (sessions two_applications
                   ++ [Stored 2%N (Session.mk "ravi@example.in" "r" 9000%Z)])
                  (applications two_applications) []))
       = (r, Some d')
       /\ list_applications "r" 6000
            (Some (Database (users two_applications)
                     (sessions two_applications
                      ++ [Stored 2%N (Session.mk "ravi@example.in" "r" 9000%Z)])
                     (applications two_applications) []))
          = (Ok items,
             Some (Database (users two_applications)
                     (sessions two_applications
                      ++ [Stored 2%N (Session.mk "ravi@example.in" "r" 9000%Z)])
                     (applications two_applications) []))
       /\ list_applications "r" 6000 (Some d') = (Ok items, Some d').
Proof.
  assert (authenticates two_applications token_1 5000 "asha@example.in") as H0
    by (vm_compute; reflexivity).
  assert (authenticates
            (Database (users two_applications)
               (sessions two_applications
                ++ [Stored 2%N (Session.mk "ravi@example.in" "r" 9000%Z)])
               (applications two_applications) [])
            token_1 5000 "asha@example.in") as H1
    by (vm_compute; reflexivity).
  assert (authenticates
            (Database (users two_applications)
               (sessions two_applications
                ++ [Stored 2%N (Session.mk "ravi@example.in" "r" 9000%Z)])
               (applications two_applications) [])
            "r" 6000 "ravi@example.in") as H2
    by (vm_compute; reflexivity).
  assert ("asha@example.in" <> "ravi@example.in") as H3 by discriminate.
  split; [exact H0|]. split; [exact H2|]. split; [exact H3|].
  exact (create_leaves_other_lists _ (ApplicationCreate.mk "pan" ∅)
           token_1 "r" 5000 6000 "asha@example.in" "ravi@example.in" H1 H2 H3).
Defined.

(** ** The life of a session *)

(** X7: a token that [login] issues, when no stored session had it, is
    refused with the 401 error from seven days after the call on, also after
    later calls of [login] that draw other UUIDs: a later login, by the same
    user or another, does not renew it. *)
Theorem session_ends_after_seven_days (d : database) (req : LoginRequest.t)
    (now : Z) (rnd : N) (later : list login_call) (t : Z) :
  (forall s, s ∈ sessions d ->
             Session.token (doc s) <> UUID.hex (UUID.uuid4 rnd)) ->
  Forall (fun c : login_call => UUID.uuid4 c.2 <> UUID.uuid4 rnd) later ->
  (now + timedelta_days 7 <= t)%Z ->
  exists r d1 rs d2,
    login req now rnd (Some d) = (Ok r, Some d1)
    /\ logins later (Some d1) = (Ok rs, Some d2)
    /\ awaitable_get_user (LoginResponse.token r) t (Some d2)
       = (Raise (HTTPException 401 "Invalid or expired token"), Some d2).
Proof.
  intros Hfresh Hlater Ht. rewrite login_run.
  match goal with |- context [Some ?x] =>
    match x with Database _ _ _ _ =>
      destruct (logins_run later x) as (d2 & new & Hr & Hs & Hn & _ & _) end
  end.
  eexists _, _, _, d2. split; [done|]. split; [exact Hr|].
  rewrite awaitable_get_user_run.
  change (LoginResponse.token (response (req, now, rnd)))
    with (UUID.hex (UUID.uuid4 rnd)).
  rewrite uuid_hex_truthy.
  assert (List.find
            (fun s => live_session (UUID.hex (UUID.uuid4 rnd)) t (doc s))
            (sessions d2) = None) as ->; [|done].
  apply find_live_None. intros s Hin Htok.
  rewrite Hs in Hin. cbn [sessions] in Hin.
  apply elem_of_app in Hin as [Hin | Hin];
    [apply elem_of_app in Hin as [Hin | Hin]|].
  - by destruct (Hfresh s Hin).
  - apply list_elem_of_singleton in Hin as ->. done.
  - exfalso.
    assert (doc s ∈ issued <$> later) as Hd
      by (rewrite <- Hn; by apply list_elem_of_fmap_2).
    apply list_elem_of_fmap in Hd as [c [Hc Hcl]].
    rewrite Forall_forall in Hlater. apply (Hlater c Hcl).
    apply uuid_hex_inj. rewrite Hc in Htok. exact Htok.
Qed.

Lemma session_ends_after_seven_days_witness :
  (forall s, s ∈ sessions empty_database ->
             Session.token (doc s) <> UUID.hex (UUID.uuid4 1))
  /\ Forall (fun c : login_call => UUID.uuid4 c.2 <> UUID.uuid4 1)
       [(asha_second, 2000%Z, 2%N)]
  /\ (1000 + timedelta_days 7 <= 604800001000)%Z
  /\ exists r d1 rs d2,
       login asha_first 1000 1 (Some empty_database) = (Ok r, Some d1)
       /\ logins [(asha_second, 2000%Z, 2%N)] (Some d1) = (Ok rs, Some d2)
       /\ awaitable_get_user (LoginResponse.token r) 604800001000 (Some d2)
          = (Raise (HTTPException 401 "Invalid or expired token"), Some d2).
Proof.
  assert (forall s, s ∈ sessions empty_database ->
                    Session.token (doc s) <> UUID.hex (UUID.uuid4 1)) as H1
    by (intros s Hs; by apply elem_of_nil in Hs).
  assert (Forall (fun c : login_call => UUID.uuid4 c.2 <> UUID.uuid4 1)
            [(asha_second, 2000%Z, 2%N)]) as H2
    by (repeat constructor; vm_compute; discriminate).
  assert (1000 + timedelta_days 7 <= 604800001000)%Z as H3
    by (vm_compute; discriminate).
  split; [exact H1|]. split; [exact H2|]. split; [exact H3|].
  exact (session_ends_after_seven_days empty_database asha_first 1000 1
           [(asha_second, 2000%Z, 2%N)] 604800001000 H1 H2 H3).
Defined.

(** ** The normalized query *)

Lemma lower_char_idem (c : ascii) :
  Str.ascii_lower_char (Str.ascii_lower_char c) = Str.ascii_lower_char c.
Proof. by destruct c as [[] [] [] [] [] [] [] []]. Qed.

Lemma isspace_lower_char (c : ascii) :
  Str.ascii_isspace (Str.ascii_lower_char c) = Str.ascii_isspace c.
Proof. by destruct c as [[] [] [] [] [] [] [] []]. Qed.

Lemma lower_idem (s : string) :
  Str.ascii_lower (Str.ascii_lower s) = Str.ascii_lower s.
Proof.
  induction s as [|c s IH]; [done|]. simpl. by rewrite lower_char_idem, IH.
Qed.

Lemma lower_app (s t : string) :
  Str.ascii_lower (s +:+ t) = Str.ascii_lower s +:+ Str.ascii_lower t.
Proof.
  induction s as [|c s IH]; [done|].
  rewrite append_cons. simpl. by rewrite IH.
Qed.

Lemma lstrip_lower (s : string) :
  Str.ascii_lstrip (Str.ascii_lower s) = Str.ascii_lower (Str.ascii_lstrip s).
Proof.
  induction s as [|c s IH]; [done|]. simpl.
  rewrite isspace_lower_char. by destruct (Str.ascii_isspace c).
Qed.

Lemma rstrip_lower (s : string) :
  Str.ascii_rstrip (Str.ascii_lower s) = Str.ascii_lower (Str.ascii_rstrip s).
Proof.
  induction s as [|c s IH]; [done|]. simpl. rewrite IH, isspace_lower_char.
  destruct (Str.ascii_rstrip s); simpl; [|done].
  by destruct (Str.ascii_isspace c).
Qed.

Lemma strip_lower (s : string) :
  Str.ascii_strip (Str.ascii_lower s) = Str.ascii_lower (Str.ascii_strip s).
Proof. unfold Str.ascii_strip. by rewrite lstrip_lower, rstrip_lower. Qed.

Lemma lstrip_trimmed (s : string) : trimmed_left (Str.ascii_lstrip s).
Proof.
  induction s as [|c s IH]; [done|]. simpl.
  by destruct (Str.ascii_isspace c) eqn:Hc.
Qed.

Lemma lstrip_id (s : string) : trimmed_left s -> Str.ascii_lstrip s = s.
Proof. destruct s as [|c s]; [done|]. simpl. by intros ->. Qed.

Lemma rstrip_trimmed (s : string) :
  trimmed_left s -> trimmed_left (Str.ascii_rstrip s).
Proof.
  destruct s as [|c s]; [done|]. simpl. intros Hc.
  destruct (Str.ascii_rstrip s); [by rewrite Hc | done].
Qed.

Lemma rstrip_idem (s : string) :
  Str.ascii_rstrip (Str.ascii_rstrip s) = Str.ascii_rstrip s.
Proof.
  induction s as [|c s IH]; [done|]. simpl.
  destruct (Str.ascii_rstrip s) as [|c' r] eqn:Hr.
  - destruct (Str.ascii_isspace c) eqn:Hc; [done|]. simpl. by rewrite Hc.
  - change (Str.ascii_rstrip (String c (String c' r)))
      with (match Str.ascii_rstrip (String c' r) with
            | EmptyString =>
                if Str.ascii_isspace c then EmptyString
                else String c EmptyString
            | String c0 r0 => String c (String c0 r0)
            end).
    by rewrite IH.
Qed.

Lemma strip_idem (s : string) :
  Str.ascii_strip (Str.ascii_strip s) = Str.ascii_strip s.
Proof.
  unfold Str.ascii_strip.
  rewrite (lstrip_id (Str.ascii_rstrip (Str.ascii_lstrip s)))
    by apply rstrip_trimmed, lstrip_trimmed.
  apply rstrip_idem.
Qed.

Lemma lstrip_is_ascii (s : string) :
  Str.is_ascii s = true -> Str.is_ascii (Str.ascii_lstrip s) = true.
Proof.
  induction s as [|c s IH]; [done|]. simpl. intros H.
  apply andb_true_iff in H as [Hc Hs].
  destruct (Str.ascii_isspace c); [by apply IH|].
  simpl. by rewrite Hc, Hs.
Qed.

Lemma rstrip_is_ascii (s : string) :
  Str.is_ascii s = true -> Str.is_ascii (Str.ascii_rstrip s) = true.
Proof.
  induction s as [|c s IH]; [done|]. simpl. intros H.
  apply andb_true_iff in H as [Hc Hs]. specialize (IH Hs).
  destruct (Str.ascii_rstrip s) as [|c' r].
  - destruct (Str.ascii_isspace c); [done|]. simpl. by rewrite Hc.
  - simpl. simpl in IH. by rewrite Hc, IH.
Qed.

Lemma strip_is_ascii (s : string) :
  Str.is_ascii s = true -> Str.is_ascii (Str.ascii_strip s) = true.
Proof. intros H. by apply rstrip_is_ascii, lstrip_is_ascii. Qed.

(** X8: for a query of ASCII characters the search does not depend on
    the letter case nor on the white space around it: the query
    lowercased, the query trimmed and the query already normalized are
    answered as the query itself. *)
Theorem predictive_search_insensitive `{U : Unicode} (q : string) :
  Str.is_ascii q = true ->
  predictive_search (lower q) = predictive_search q
  /\ predictive_search (strip q) = predictive_search q
  /\ predictive_search (strip (lower q)) = predictive_search q.
Proof.
  intros Hq.
  assert (Str.is_ascii (Str.ascii_lower q) = true) as Hl
    by (by rewrite ascii_lower_is_ascii).
  assert (Str.is_ascii (Str.ascii_strip q) = true) as Hs
    by (by apply strip_is_ascii).
  assert (Str.is_ascii (Str.ascii_strip (Str.ascii_lower q)) = true) as Hn
    by (by apply strip_is_ascii).
  rewrite (lower_ascii q Hq), (strip_ascii q Hq), (strip_ascii _ Hl).
  unfold predictive_search. cbv zeta.
  pose proof (normalized_ascii (Str.ascii_lower q) Hl) as E1.
  pose proof (normalized_ascii (Str.ascii_strip q) Hs) as E2.
  pose proof (normalized_ascii (Str.ascii_strip (Str.ascii_lower q)) Hn) as E3.
  pose proof (normalized_ascii q Hq) as E0.
  unfold normalized in E0, E1, E2, E3. rewrite E0, E1, E2, E3.
  assert (Str.ascii_strip (Str.ascii_lower (Str.ascii_strip q))
          = Str.ascii_strip (Str.ascii_lower q)) as A
    by (by rewrite <- strip_lower, strip_idem).
  assert (Str.ascii_strip
            (Str.ascii_lower (Str.ascii_strip (Str.ascii_lower q)))
          = Str.ascii_strip (Str.ascii_lower q)) as B
    by (by rewrite <- strip_lower, strip_idem, lower_idem).
  by rewrite lower_idem, A, B.
Qed.

Lemma predictive_search_insensitive_witness :
  Str.is_ascii " PAN Tax " = true
  /\ predictive_search (H := ascii_only) (@lower ascii_only " PAN Tax ")
     = predictive_search (H := ascii_only) " PAN Tax "
  /\ predictive_search (H := ascii_only) (@strip ascii_only " PAN Tax ")
     = predictive_search (H := ascii_only) " PAN Tax "
  /\ predictive_search (H := ascii_only)
       (@strip ascii_only (@lower ascii_only " PAN Tax "))
     = predictive_search (H := ascii_only) " PAN Tax ".
Proof.
  split; [reflexivity|].
  exact (predictive_search_insensitive (U := ascii_only) " PAN Tax " eq_refl).
Defined.

(** ** What the search finds *)

Lemma predictive_search_filter `{U : Unicode} (q : string) :
  predictive_search q
  = <["results" :=
        JArr (JObj <$> (SearchItem.model_dump
                          <$> List.filter (item_matches (normalized q))
                                SEARCH_ITEMS))]> ∅.
Proof.
  unfold predictive_search. fold (normalized q).
  rewrite search_results_filter, take_ge; [done|].
  rewrite length_fmap.
  pose proof (sublist_length _ _
                (filter_sublist (item_matches (normalized q)) SEARCH_ITEMS)) as H.
  change (length SEARCH_ITEMS) with 5 in H. lia.
Qed.

Lemma is_prefix_trans (a b c : string) :
  is_prefix a b -> is_prefix b c -> is_prefix a c.
Proof.
  intros [p ->] [p' ->]. exists (p +:+ p'). by rewrite append_assoc.
Qed.

Lemma is_prefix_substring (a b h : string) :
  is_prefix a b -> is_substring b h -> is_substring a h.
Proof.
  intros [p ->] [pre [post ->]]. exists pre, (p +:+ post).
  by rewrite append_assoc.
Qed.

Lemma is_substring_trans (a b c : string) :
  is_substring a b -> is_substring b c -> is_substring a c.
Proof.
  intros [p [q ->]] [p' [q' ->]]. exists (p' +:+ p), (q +:+ q').
  by rewrite !append_assoc.
Qed.

Lemma matches_narrow `{U : Unicode} (ql ql' : string) (item : SearchItem.t) :
  is_prefix ql ql' -> matches ql' item -> matches ql item.
Proof.
  intros Hp [H | [H | [k [Hk H]]]].
  - left. by apply (is_prefix_substring ql ql').
  - right; left. by apply (is_prefix_trans ql ql').
  - right; right. exists k. split; [done|]. by apply (is_prefix_trans ql ql').
Qed.

Lemma filter_sublist_impl {A} (P Q : A -> bool) (l : list A) :
  (forall x, P x = true -> Q x = true) ->
  List.filter P l `sublist_of` List.filter Q l.
Proof.
  intros H. induction l as [|x l IH]; simpl; [constructor|].
  destruct (P x) eqn:Hp.
  - rewrite (H x Hp). by constructor.
  - destruct (Q x); [by constructor | done].
Qed.

(** X9: typing on narrows the search: when the normalized form of a
    query begins with the normalized form of another, its results are among
    the results of the other, in the same order; this holds for the
    lowercasing and the trimming of any Unicode database. *)
Theorem predictive_search_narrows `{U : Unicode} (q q' : string) :
  is_prefix (normalized q) (normalized q') ->
  exists l l',
    predictive_search q
    = <["results" := JArr (JObj <$> (SearchItem.model_dump <$> l))]> ∅
    /\ predictive_search q'
       = <["results" := JArr (JObj <$> (SearchItem.model_dump <$> l'))]> ∅
    /\ l' `sublist_of` l
    /\ l `sublist_of` SEARCH_ITEMS.
Proof.
  intros Hp. eexists _, _.
  split; [apply predictive_search_filter|].
  split; [apply predictive_search_filter|].
  split; [|apply filter_sublist].
  apply filter_sublist_impl. intros item Hm.
  apply item_matches_spec. apply item_matches_spec in Hm.
  by apply (matches_narrow _ (normalized q')).
Qed.

Lemma predictive_search_narrows_witness :
  is_prefix (normalized (H := ascii_only) " Aa")
    (normalized (H := ascii_only) "AADH ")
  /\ exists l l',
       predictive_search (H := ascii_only) " Aa"
       = <["results" := JArr (JObj <$> (SearchItem.model_dump <$> l))]> ∅
       /\ predictive_search (H := ascii_only) "AADH "
          = <["results" := JArr (JObj <$> (SearchItem.model_dump <$> l'))]> ∅
       /\ l' `sublist_of` l
       /\ l `sublist_of` SEARCH_ITEMS.
Proof.
  assert (is_prefix (normalized (H := ascii_only) " Aa")
            (normalized (H := ascii_only) "AADH ")) as H
    by (apply prefix_spec; vm_compute; reflexivity).
  split; [exact H|].
  exact (predictive_search_narrows (U := ascii_only) " Aa" "AADH " H).
Defined.

Lemma lstrip_suffix (s : string) : exists pre, s = pre +:+ Str.ascii_lstrip s.
Proof.
  induction s as [|c s [pre IH]]; [by exists ""|]. simpl.
  destruct (Str.ascii_isspace c); [|by exists ""].
  exists (String c pre). rewrite append_cons. by rewrite <- IH.
Qed.

Lemma rstrip_prefix (s : string) : exists post, s = Str.ascii_rstrip s +:+ post.
Proof.
  induction s as [|c s [post IH]]; [by exists ""|]. simpl.
  destruct (Str.ascii_rstrip s) as [|c' r].
  - destruct (Str.ascii_isspace c); [by eexists|].
    exists s. done.
  - exists post. rewrite append_cons. by rewrite <- IH.
Qed.

Lemma strip_substring (s : string) : is_substring (Str.ascii_strip s) s.
Proof.
  destruct (lstrip_suffix s) as [pre Hpre].
  destruct (rstrip_prefix (Str.ascii_lstrip s)) as [post Hpost].
  exists pre, post. unfold Str.ascii_strip. by rewrite <- Hpost.
Qed.

Lemma join_contains (sep w : string) (parts : list string) :
  w ∈ parts -> is_substring w (Str.join sep parts).
Proof.
  unfold Str.join. induction parts as [|x parts IH]; intros Hw.
  - by apply elem_of_nil in Hw.
  - apply elem_of_cons in Hw as [-> | Hw].
    + destruct parts as [|y parts]; simpl.
      * exists "", "". by rewrite append_nil_r.
      * by exists "", (sep +:+ String.concat sep (y :: parts)).
    + destruct (IH Hw) as [pre [post Hc]].
      destruct parts as [|y parts]; [by apply elem_of_nil in Hw|].
      cbn [String.concat]. cbn [String.concat] in Hc.
      exists (x +:+ sep +:+ pre), post. rewrite Hc.
      by rewrite !append_assoc.
Qed.

Lemma lower_substring (w h : string) :
  is_substring w h -> is_substring (Str.ascii_lower w) (Str.ascii_lower h).
Proof.
  intros [pre [post ->]]. exists (Str.ascii_lower pre), (Str.ascii_lower post).
  by rewrite !lower_app.
Qed.

(** With the ASCII methods an item matches the query made of its label,
    of its category or of one of its keywords. *)
Lemma item_matches_own_word (item : SearchItem.t) (w : string) :
  w ∈ [SearchItem.label item; SearchItem.category item]
      ++ SearchItem.keywords item ->
  item_matches (H := ascii_only) (Str.ascii_strip (Str.ascii_lower w)) item
  = true.
Proof.
  intros Hw. unfold item_matches. apply orb_true_iff. left.
  apply contains_spec. unfold hay. cbn [lower ascii_only].
  apply (is_substring_trans _ (Str.ascii_lower w)); [apply strip_substring|].
  by apply lower_substring, join_contains.
Qed.

Lemma item_matches_own_key (item : SearchItem.t) :
  item ∈ SEARCH_ITEMS ->
  item_matches (H := ascii_only)
    (Str.ascii_strip (Str.ascii_lower (SearchItem.key item))) item = true.
Proof.
  unfold SEARCH_ITEMS. intros H.
  repeat (apply elem_of_cons in H as [-> | H]; [by vm_compute|]).
  by apply elem_of_nil in H.
Qed.

(** The words of the catalog are ASCII. *)
Lemma catalog_words_ascii (item : SearchItem.t) (w : string) :
  item ∈ SEARCH_ITEMS ->
  w ∈ SearchItem.key item :: SearchItem.label item
      :: SearchItem.category item :: SearchItem.keywords item ->
  Str.is_ascii w = true.
Proof.
  unfold SEARCH_ITEMS. intros H Hw.
  repeat (apply elem_of_cons in H as [-> | H];
          [cbn [SearchItem.key SearchItem.label SearchItem.category
                SearchItem.keywords] in Hw;
           repeat (apply elem_of_cons in Hw as [-> | Hw]; [reflexivity|]);
           by apply elem_of_nil in Hw|]).
  by apply elem_of_nil in H.
Qed.

(** X10: the search for the key, the label, the category or a keyword of
    an item of the catalog returns that item. *)
Theorem predictive_search_finds_own_words `{U : Unicode} (item : SearchItem.t)
    (w : string) :
  item ∈ SEARCH_ITEMS ->
  w ∈ SearchItem.key item :: SearchItem.label item
      :: SearchItem.category item :: SearchItem.keywords item ->
  exists l,
    predictive_search w
    = <["results" := JArr (JObj <$> (SearchItem.model_dump <$> l))]> ∅
    /\ item ∈ l.
Proof.
  intros Hi Hw. eexists. split; [apply predictive_search_filter|].
  apply filter_elem_of. split; [done|].
  rewrite (normalized_ascii w (catalog_words_ascii item w Hi Hw)).
  rewrite (item_matches_catalog _ item Hi).
  apply elem_of_cons in Hw as [-> | Hw].
  - by apply item_matches_own_key.
  - by apply item_matches_own_word.
Qed.

Lemma predictive_search_finds_own_words_witness :
  SearchItem.mk "voter" "Register Voter ID" "Elections" "/guide/voter"
    ["epic"; "eci"; "form 6"] ∈ SEARCH_ITEMS
  /\ "Elections" ∈ ["voter"; "Register Voter ID"; "Elections";
                     "epic"; "eci"; "form 6"]
  /\ exists l,
       predictive_search (H := ascii_only) "Elections"
       = <["results" := JArr (JObj <$> (SearchItem.model_dump <$> l))]> ∅
       /\ SearchItem.mk "voter" "Register Voter ID" "Elections" "/guide/voter"
            ["epic"; "eci"; "form 6"] ∈ l.
Proof.
  assert (SearchItem.mk "voter" "Register Voter ID" "Elections" "/guide/voter"
            ["epic"; "eci"; "form 6"] ∈ SEARCH_ITEMS) as H
    by (apply list_elem_of_In; simpl; auto 10).
  assert ("Elections" ∈ ["voter"; "Register Voter ID"; "Elections";
                         "epic"; "eci"; "form 6"]) as Hw
    by (apply list_elem_of_In; simpl; auto 10).
  split; [exact H|]. split; [exact Hw|].
  exact (predictive_search_finds_own_words (U := ascii_only) _ "Elections" H Hw).
Defined.

(** X11: the catalog of the search, the guides and the [Application]
    model know the same five keys, so every item the search returns has a
    key for which [get_guide] succeeds and which [create_application]
    accepts as document type. *)
Theorem search_keys_have_guides `{U : Unicode} (q k : string) :
  ((exists item, item ∈ SEARCH_ITEMS /\ SearchItem.key item = k)
   <-> exists g, get_guide k = Ok g)
  /\ ((exists g, get_guide k = Ok g) <-> k ∈ Application.doc_types)
  /\ exists l,
       predictive_search q
       = <["results" := JArr (JObj <$> (SearchItem.model_dump <$> l))]> ∅
       /\ forall item, item ∈ l ->
            (exists g, get_guide (SearchItem.key item) = Ok g)
            /\ SearchItem.key item ∈ Application.doc_types.
Proof.
  assert (forall item, item ∈ SEARCH_ITEMS -> SearchItem.key item ∈ guide_keys)
    as Hkeys.
  { unfold SEARCH_ITEMS. intros item H.
    repeat (apply elem_of_cons in H as [-> | H];
            [apply list_elem_of_In; simpl; auto 10|]).
    by apply elem_of_nil in H. }
  split; [|split].
  - rewrite get_guide_Ok. split.
    + intros [item [Hi <-]]. by apply Hkeys.
    + unfold guide_keys. intros H.
      repeat (apply elem_of_cons in H as [-> | H];
              [eexists (SearchItem.mk _ _ _ _ _);
               split; [|reflexivity]; apply list_elem_of_In; simpl; eauto 10|]).
      by apply elem_of_nil in H.
  - apply get_guide_Ok.
  - eexists. split; [apply predictive_search_filter|].
    intros item Hi. apply filter_elem_of in Hi as [Hi _].
    split; [apply get_guide_Ok|]; by apply Hkeys.
Qed.

(** ** The stores the service builds *)

Lemma authenticates_dec (d : database) (token : string) (now : Z) :
  (exists s, s ∈ sessions d
             /\ authenticates d token now (Session.user_email (doc s)))
  \/ (exists e, awaitable_get_user token now (Some d) = (Raise e, Some d)).
Proof.
  destruct (Str.truthy token) eqn:Ht.
  - destruct (List.find (fun s => live_session token now (doc s)) (sessions d))
      as [s|] eqn:Hf.
    + left. exists s. split; [by apply find_live_Some in Hf as [? _]|].
      apply authenticates_iff. split; [done|]. by exists s.
    + right. rewrite awaitable_get_user_run, Ht, Hf. by eexists.
  - right. rewrite awaitable_get_user_run, Ht. by eexists.
Qed.

(** What one call can do to the store. *)
Lemma serve_step (c : call) (d : database) :
  exists d',
    serve c (Some d) = Some d'
    /\ (d' = d
        \/ (exists req now rnd,
              d' = Database
                     (if existsb (fun s => String.eqb (User.email (doc s))
                                             (LoginRequest.email req)) (users d)
                      then users d
                      else users d ++ [Stored (next_id (users d)) (new_user req)])
                     (sessions d
                      ++ [Stored (next_id (sessions d)) (issued (req, now, rnd))])
                     (applications d) (payments d))
        \/ (exists a s,
              s ∈ sessions d
              /\ Application.user_email a = Session.user_email (doc s)
              /\ application_valid a
              /\ d' = Database (users d) (sessions d)
                        (applications d ++ [Stored (next_id (applications d)) a])
                        (payments d))
        \/ (exists p s,
              s ∈ sessions d
              /\ Payment.user_email p = Session.user_email (doc s)
              /\ payment_valid p
              /\ d' = Database (users d) (sessions d) (applications d)
                        (payments d ++ [Stored (next_id (payments d)) p]))).
Proof.
  destruct c as [req now rnd | body token now | token now | payload token now];
    cbn [serve].
  - rewrite login_run. eexists. split; [done|]. right; left. by eexists _, _, _.
  - unfold post_applications, bind at 1, lift.
    destruct (ApplicationCreate.model_validate body) as [payload|e];
      [|by exists d; split; [|left]].
    destruct (authenticates_dec d token now) as [[s [Hs Ha]] | [e He]].
    + rewrite (create_application_run d payload token now _ Ha).
      destruct (Application.new _ _ _) as [a|e] eqn:Hn;
        [|by exists d; split; [|left]].
      apply Application_new_Ok in Hn as [-> Hdt].
      eexists. split; [done|]. right; right; left.
      eexists _, s. by repeat split.
    + unfold create_application, bind at 1. rewrite He.
      exists d. split; [done | by left].
  - exists d. split; [|by left].
    destruct (authenticates_dec d token now) as [[s [Hs Ha]] | [e He]].
    + by rewrite (list_applications_run d token now _ Ha).
    + unfold list_applications, bind at 1. by rewrite He.
  - destruct (authenticates_dec d token now) as [[s [Hs Ha]] | [e He]].
    + rewrite (init_payment_run d payload token now _ Ha).
      unfold Payment.new.
      destruct (Payment.ge0 (PaymentInit.amount payload)) eqn:Hge;
        [|by exists d; split; [|left]].
      eexists. split; [done|]. right; right; right.
      eexists _, s. by repeat split.
    + unfold init_payment, bind at 1. rewrite He.
      exists d. split; [done | by left].
Qed.

Lemma serve_all_invariant (P : database -> Prop) :
  (forall c d d', P d -> serve c (Some d) = Some d' -> P d') ->
  forall calls d0 d, P d0 -> serve_all calls (Some d0) = Some d -> P d.
Proof.
  intros Hstep calls. induction calls as [|c calls IH]; intros d0 d H0 Hr.
  - simpl in Hr. by injection Hr as <-.
  - cbn [serve_all foldl] in Hr.
    destruct (serve_step c d0) as (d1 & H1 & _). rewrite H1 in Hr.
    apply (IH d1 d); [|done]. by apply (Hstep c d0).
Qed.

Lemma reachable_invariant (P : database -> Prop) :
  P empty_database ->
  (forall c d d', P d -> serve c (Some d) = Some d' -> P d') ->
  forall d, reachable d -> P d.
Proof.
  intros H0 Hstep d [calls Hr].
  by apply (serve_all_invariant P Hstep calls empty_database d).
Qed.

Lemma has_user_emails (email : string) (d : database) :
  has_user email d <-> email ∈ (fun u => User.email (doc u)) <$> users d.
Proof.
  unfold has_user. rewrite list_elem_of_fmap. split.
  - intros [u [Hu He]]. by exists u.
  - intros [u [He Hu]]. by exists u.
Qed.

(** X12: in every store the service builds, no two users have the same
    address. *)
Theorem reachable_emails_unique (d : database) :
  reachable d -> emails_unique d.
Proof.
  apply reachable_invariant; [constructor|].
  clear d. intros c d d' Hd Hs.
  destruct (serve_step c d) as (d1 & H1 & Hcases).
  rewrite H1 in Hs. injection Hs as ->.
  destruct Hcases as [-> | [(req & now & rnd & ->) |
                            [(a & s & _ & _ & _ & ->) | (p & s & _ & _ & _ & ->)]]];
    try done.
  unfold emails_unique. cbn [users].
  destruct (existsb _ (users d)) eqn:Hex; [done|].
  rewrite fmap_app. apply NoDup_app. split; [done|].
  split; [|apply NoDup_singleton].
  intros x Hx Hx'. apply list_elem_of_singleton in Hx'. subst x.
  cbn [doc new_user User.email] in Hx.
  apply has_user_emails, has_user_existsb in Hx. congruence.
Qed.

Lemma has_user_users (d d' : database) (email : string) :
  (forall u, u ∈ users d -> u ∈ users d') ->
  has_user email d -> has_user email d'.
Proof. intros H [u [Hu He]]. exists u. split; [by apply H | done]. Qed.

(** X13: in every store the service builds, each session, each
    application and each payment belongs to an address that has a user. *)
Theorem reachable_owners_known (d : database) :
  reachable d -> owners_known d.
Proof.
  apply reachable_invariant.
  { repeat split; intros x Hx; by apply elem_of_nil in Hx. }
  clear d. intros c d d' (Hss & Has & Hps) Hs.
  destruct (serve_step c d) as (d1 & H1 & Hcases).
  rewrite H1 in Hs. injection Hs as ->.
  destruct Hcases as [-> | [(req & now & rnd & ->) |
                            [(a & s & Hin & He & _ & ->) |
                             (p & s & Hin & He & _ & ->)]]].
  - done.
  - set (d' := Database _ _ _ _).
    assert (forall u, u ∈ users d -> u ∈ users d') as Hmono.
    { intros u Hu. cbn [d' users].
      destruct (existsb _ (users d)); [done|]. apply elem_of_app. by left. }
    assert (has_user (LoginRequest.email req) d') as Hnew.
    { cbn [d']. destruct (existsb _ (users d)) eqn:Hex.
      - apply has_user_existsb in Hex. by apply (has_user_users d).
      - exists (Stored (next_id (users d)) (new_user req)). cbn [users].
        split; [|done]. apply elem_of_app. right. by constructor. }
    repeat split.
    + intros x Hx. cbn [d' sessions] in Hx.
      apply elem_of_app in Hx as [Hx | Hx].
      * by apply (has_user_users d), Hss.
      * apply list_elem_of_singleton in Hx as ->. exact Hnew.
    + intros x Hx. by apply (has_user_users d), Has.
    + intros x Hx. by apply (has_user_users d), Hps.
  - repeat split; [done | | done].
    intros x Hx. cbn [applications] in Hx.
    apply elem_of_app in Hx as [Hx | Hx]; [by apply Has|].
    apply list_elem_of_singleton in Hx as ->. cbn [doc]. rewrite He.
    by apply (has_user_users d), Hss.
  - repeat split; [done | done |].
    intros x Hx. cbn [payments] in Hx.
    apply elem_of_app in Hx as [Hx | Hx]; [by apply Hps|].
    apply list_elem_of_singleton in Hx as ->. cbn [doc]. rewrite He.
    by apply (has_user_users d), Hss.
Qed.

(** X14: in every store the service builds, each application has the
    status "draft", one of the five document types and no reference, and
    each payment has an amount that is at least zero, the currency "INR", the
    status "initiated" and no provider reference. *)
Theorem reachable_records_valid (d : database) :
  reachable d ->
  (forall a, a ∈ applications d -> application_valid (doc a))
  /\ (forall p, p ∈ payments d -> payment_valid (doc p)).
Proof.
  apply (reachable_invariant
           (fun d => (forall a, a ∈ applications d -> application_valid (doc a))
                     /\ (forall p, p ∈ payments d -> payment_valid (doc p)))).
  { split; intros x Hx; by apply elem_of_nil in Hx. }
  clear d. intros c d d' [Has Hps] Hs.
  destruct (serve_step c d) as (d1 & H1 & Hcases).
  rewrite H1 in Hs. injection Hs as ->.
  destruct Hcases as [-> | [(req & now & rnd & ->) |
                            [(a & s & _ & _ & Hv & ->) |
                             (p & s & _ & _ & Hv & ->)]]]; try done.
  - split; [|done]. intros x Hx. cbn [applications] in Hx.
    apply elem_of_app in Hx as [Hx | Hx]; [by apply Has|].
    by apply list_elem_of_singleton in Hx as ->.
  - split; [done|]. intros x Hx. cbn [payments] in Hx.
    apply elem_of_app in Hx as [Hx | Hx]; [by apply Hps|].
    by apply list_elem_of_singleton in Hx as ->.
Qed.

Lemma reachable_after_a_day : reachable after_a_day.
Proof. exists a_day. vm_compute. reflexivity. Qed.

Lemma reachable_emails_unique_witness :
  reachable after_a_day /\ emails_unique after_a_day.
Proof.
  split; [exact reachable_after_a_day|].
  exact (reachable_emails_unique after_a_day reachable_after_a_day).
Defined.

Lemma reachable_owners_known_witness :
  reachable after_a_day /\ owners_known after_a_day.
Proof.
  split; [exact reachable_after_a_day|].
  exact (reachable_owners_known after_a_day reachable_after_a_day).
Defined.

Lemma reachable_records_valid_witness :
  reachable after_a_day
  /\ (forall a, a ∈ applications after_a_day -> application_valid (doc a))
  /\ (forall p, p ∈ payments after_a_day -> payment_valid (doc p)).
Proof.
  split; [exact reachable_after_a_day|].
  exact (reachable_records_valid after_a_day reachable_after_a_day).
Defined.

(** The store after [a_day]: one user, two sessions, one application, one
    payment. *)
Example after_a_day_sizes :
  length (users after_a_day) = 1 /\ length (sessions after_a_day) = 2
  /\ length (applications after_a_day) = 1
  /\ length (payments after_a_day) = 1.
Proof. repeat split; vm_compute; reflexivity. Qed.

(** ** What [login] stores and issues *)

(** X15: for a new address [login] stores the language of the request as
    it is, "en" when the request has none or an empty one; the stored user
    is one the [User] model accepts exactly when that language is "en" or
    "hi", so a request with another language stores a user outside the
    model. *)
Theorem login_stores_language_unchecked (d : database) (req : LoginRequest.t)
    (now : Z) (rnd : N) :
  ~ has_user (LoginRequest.email req) d ->
  exists r d' u,
    login req now rnd (Some d) = (Ok r, Some d')
    /\ users d' = users d ++ [u]
    /\ User.preferred_language (doc u)
       = or_str (LoginRequest.preferred_language req) "en"
    /\ ((exists v, User_model_validate (doc u) = Ok v)
        <-> or_str (LoginRequest.preferred_language req) "en" ∈ User_languages).
Proof.
  intros Hn. rewrite login_run, (existsb_user_false d _ Hn).
  eexists _, _, _. split; [done|]. split; [done|]. split; [done|].
  unfold User_model_validate. cbn [doc new_user User.preferred_language].
  case_bool_decide as Hl; split; try done.
  - by eexists.
  - intros [v H]. discriminate H.
Qed.

Lemma login_stores_language_unchecked_witness :
  ~ has_user "jean@example.in" one_login
  /\ exists r d' u,
       login (LoginRequest.mk "jean@example.in" (Some "Jean") (Some "fr"))
         8000 3 (Some one_login) = (Ok r, Some d')
       /\ users d' = users one_login ++ [u]
       /\ User.preferred_language (doc u) = "fr"
       /\ ~ exists v, User_model_validate (doc u) = Ok v.
Proof.
  assert (~ has_user "jean@example.in" one_login) as H.
  { intros [u [Hu He]]. apply list_elem_of_singleton in Hu as ->.
    discriminate He. }
  split; [exact H|].
  destruct (login_stores_language_unchecked one_login
              (LoginRequest.mk "jean@example.in" (Some "Jean") (Some "fr"))
              8000 3 H) as (r & d' & u & Hl & Hu & Hp & Hv).
  exists r, d', u. split; [exact Hl|]. split; [exact Hu|]. split; [exact Hp|].
  intros Hex. apply Hv in Hex. revert Hex.
  apply (bool_decide_unpack _). vm_compute. exact I.
Defined.

Lemma string_length_app (a b : string) :
  String.length (a +:+ b) = String.length a + String.length b.
Proof.
  induction a as [|c a IH]; [done|]. rewrite append_cons. simpl. by rewrite IH.
Qed.

Lemma hex_digits_S (w : nat) (n : N) :
  Str.hex_digits (S w) n
  = Str.hex_digits w (n / 16) +:+ String (Str.hexdigit (n mod 16)) "".
Proof. reflexivity. Qed.

Lemma hex_digits_length (w : nat) (n : N) :
  String.length (Str.hex_digits w n) = w.
Proof.
  revert n. induction w as [|w IH]; intros n; [done|].
  rewrite hex_digits_S, string_length_app, IH. simpl. lia.
Qed.

Lemma string_forallb_app (P : ascii -> bool) (a b : string) :
  string_forallb P (a +:+ b) = string_forallb P a && string_forallb P b.
Proof.
  induction a as [|c a IH]; [done|]. rewrite append_cons. simpl.
  by rewrite IH, andb_assoc.
Qed.

Lemma is_hexdigit_hexdigit (d : N) :
  (d < 16)%N -> is_hexdigit (Str.hexdigit d) = true.
Proof.
  intros Hd. unfold is_hexdigit, Str.hexdigit.
  destruct (N.ltb_spec d 10); rewrite N_ascii_embedding by lia.
  - apply orb_true_iff. left. apply andb_true_iff.
    split; apply N.leb_le; lia.
  - apply orb_true_iff. right. apply andb_true_iff.
    split; apply N.leb_le; lia.
Qed.

Lemma hex_digits_hex (w : nat) (n : N) :
  string_forallb is_hexdigit (Str.hex_digits w n) = true.
Proof.
  revert n. induction w as [|w IH]; intros n; [done|].
  rewrite hex_digits_S, string_forallb_app, IH. simpl.
  rewrite is_hexdigit_hexdigit; [done|]. apply N.mod_lt. lia.
Qed.

(** X16: the token [login] issues is made of thirty-two characters, each
    a digit or a letter from a to f; it is not empty, so
    [awaitable_get_user] does not take it for a missing token. *)
Theorem login_token_format (d : database) (req : LoginRequest.t) (now : Z)
    (rnd : N) :
  exists r d',
    login req now rnd (Some d) = (Ok r, Some d')
    /\ String.length (LoginResponse.token r) = 32
    /\ string_forallb is_hexdigit (LoginResponse.token r) = true
    /\ (forall t, awaitable_get_user (LoginResponse.token r) t (Some d')
                  <> (Raise (HTTPException 401 "Missing token"), Some d')).
Proof.
  rewrite login_run. eexists _, _. split; [done|].
  change (LoginResponse.token (response (req, now, rnd)))
    with (Str.hex_digits 32 (UUID.uuid4 rnd)).
  split; [apply hex_digits_length|]. split; [apply hex_digits_hex|].
  intros t. rewrite awaitable_get_user_run.
  change (Str.hex_digits 32 (UUID.uuid4 rnd)) with (UUID.hex (UUID.uuid4 rnd)).
  rewrite uuid_hex_truthy. by destruct (List.find _ _).
Qed.
